(** * django-termsandconditions: the resolution engine of [models.py]

    A shallow embedding of [termsandconditions/models.py]: the two Django
    models, the validation hook [clean], and the four cached static
    resolvers of [TermsAndConditions].

    What is Django's and not the repository's is modelled only as far as the
    code relies on it:
    - a table is the list of its rows; [id] is the primary key;
    - a [QuerySet] is lazy: it is the query it stands for (what it selects
      and how it orders, as functions of the database it is eventually run
      against) together with Django's [_result_cache];
    - the cache backend stores pickled values with an absolute expiry time,
      and pickling a [QuerySet] evaluates it;
    - [timezone.now()] is the argument [now] of a call. *)

From Stdlib Require Import ZArith.
From stdpp Require Import gmap strings list sorting.

Local Open Scope Z_scope.

(** ** Python values and exceptions *)

Definition datetime := Z.

Inductive Exn :=
  | TypeError
  | AttributeError
  | DoesNotExist
  | ValidationError (message : string)
  | IntegrityError
  | OperationalError.

Definition Result (A : Type) : Type := Exn + A.

Definition result_bind {A B} (r : Result A) (k : A → Result B) : Result B :=
  match r with
  | inl e => inl e
  | inr a => k a
  end.

(** ** Settings ([getattr(settings, ..., default)]) *)

Record Settings := {
  DEFAULT_TERMS_SLUG : string;
  TERMS_CACHE_SECONDS : Z;
  TERMS_EXCLUDE_USERS_WITH_PERM : option string
}.

Definition default_settings : Settings := {|
  DEFAULT_TERMS_SLUG := "site-terms";
  TERMS_CACHE_SECONDS := 30;
  TERMS_EXCLUDE_USERS_WITH_PERM := None
|}.

Definition SKIP_OPTIONAL_CACHE_KEY_SUFFIX : string := "_skip_optional".
Definition SKIP_SEEN_CACHE_KEY_SUFFIX : string := "_skip_seen".

(** ** The models *)

(** [settings.AUTH_USER_MODEL], as far as the engine looks at it.
    [user_permissions] are the permissions granted explicitly (to the user
    or to one of their groups). *)
Record User := {
  pk : Z;
  username : string;
  is_active : bool;
  is_superuser : bool;
  user_permissions : list string
}.

Definition get_username (u : User) : string := username u.

(** Django's [ModelBackend.has_perm]: only active users hold permissions. *)
Definition backend_has_perm (u : User) (perm : string) : bool :=
  is_active u && bool_decide (perm ∈ user_permissions u).

(** Django's [PermissionsMixin.has_perm]: an active superuser has every
    permission; otherwise the backend decides. *)
Definition has_perm (u : User) (perm : string) : bool :=
  if is_active u && is_superuser u then true else backend_has_perm u perm.

(** [version_number] is a decimal with two places, kept in hundredths. *)
Record TermsAndConditions := {
  id : Z;
  slug : string;
  name : string;
  version_number : Z;
  text : option string;
  info : option string;
  date_active : option datetime;
  date_created : datetime;
  optional : bool
}.

(** [user] and [terms] are the foreign keys ([user_id], [terms_id]);
    [ip_address] is kept as the text of the address. *)
Record UserTermsAndConditions := {
  user : Z;
  terms : Z;
  ip_address : option string;
  date_accepted : option datetime
}.

Global Instance Exn_eq_dec : EqDecision Exn.
Proof. solve_decision. Defined.
Global Instance TermsAndConditions_eq_dec : EqDecision TermsAndConditions.
Proof. solve_decision. Defined.
Global Instance UserTermsAndConditions_eq_dec : EqDecision UserTermsAndConditions.
Proof. solve_decision. Defined.

(** ** The database *)

(** The two tables, and two facts about the backend:
    [true_sorts_first] says that [ORDER BY optional ASC] puts [True] first
    (the quirk the workaround in [get_active_terms_not_agreed_to] is about);
    [userterms_failure] is the exception, if any, with which a lookup in the
    acceptance table fails. *)
Record Database := {
  termsandconditions : list TermsAndConditions;
  usertermsandconditions : list UserTermsAndConditions;
  true_sorts_first : bool;
  userterms_failure : option Exn
}.

(** ** QuerySets over [TermsAndConditions] *)

(** [selection] is the WHERE clause: the rows it keeps, in table order.
    [ordering] is the ORDER BY clause; [order_by] replaces it. *)
Record QuerySet := {
  selection : Database → Result (list TermsAndConditions);
  ordering : Database → list TermsAndConditions → list TermsAndConditions;
  result_cache : option (list TermsAndConditions)
}.

(** Running the query against a database. *)
Definition query (qs : QuerySet) (db : Database) : Result (list TermsAndConditions) :=
  result_bind (selection qs db) (λ rows, inr (ordering qs db rows)).

Inductive PyVal :=
  | VNone
  | VTerms (t : TermsAndConditions)
  | VList (l : list Z)
  | VQuerySet (qs : QuerySet).

(** [QuerySet._fetch_all]: run the query unless the result is there already. *)
Definition fetch_all (db : Database) (qs : QuerySet) : Result QuerySet :=
  match result_cache qs with
  | Some _ => inr qs
  | None =>
      result_bind (query qs db) (λ rows,
        inr {| selection := selection qs; ordering := ordering qs;
               result_cache := Some rows |})
  end.

(** The rows a caller sees when iterating over an evaluated queryset. *)
Definition rows_of (qs : QuerySet) : list TermsAndConditions :=
  default [] (result_cache qs).

(** What iterating over a returned value yields: the rows of a queryset,
    nothing for the empty list [[]]. *)
Definition sequence (v : PyVal) : list TermsAndConditions :=
  match v with
  | VQuerySet qs => rows_of qs
  | _ => []
  end.

(** The rows a call handed to its caller; none when it raised. *)
Definition returned_rows {W} (outcome : Result PyVal * W) : list TermsAndConditions :=
  match outcome.1 with
  | inr v => sequence v
  | inl _ => []
  end.

(** *** Lookups and [Q] objects

    A condition is resolved against the database the query runs on. *)
Definition Q := Database → Result (TermsAndConditions → bool).

(** [Q(optional=True)] *)
Definition Q_optional : Q := λ _, inr optional.

(** [q1 & q2] *)
Definition Q_and (q1 q2 : Q) : Q := λ db,
  result_bind (q1 db) (λ p1,
  result_bind (q2 db) (λ p2,
    inr (λ t, p1 t && p2 t))).

(** [userterms__in=UserTermsAndConditions.objects.filter(...)], the inner
    filter given by [sub]: some row of the acceptance table that passes
    [sub] points to the terms. *)
Definition userterms__in (sub : UserTermsAndConditions → bool) : Q := λ db,
  match userterms_failure db with
  | Some e => inl e
  | None =>
      inr (λ t, existsb (λ ut, sub ut && bool_decide (terms ut = id t))
                        (usertermsandconditions db))
  end.

(** [UserTermsAndConditions.objects.filter(user=user)] *)
Definition filter_user (u : User) (ut : UserTermsAndConditions) : bool :=
  bool_decide (user ut = pk u).

(** [UserTermsAndConditions.objects.filter(user=user, date_accepted__isnull=False)] *)
Definition filter_user_accepted (u : User) (ut : UserTermsAndConditions) : bool :=
  bool_decide (user ut = pk u) && bool_decide (is_Some (date_accepted ut)).

(** [qs.exclude(cond)] *)
Definition exclude (cond : Q) (qs : QuerySet) : QuerySet := {|
  selection := λ db,
    result_bind (cond db) (λ p,
    result_bind (selection qs db) (λ rows,
      inr (List.filter (λ t, negb (p t)) rows)));
  ordering := ordering qs;
  result_cache := None
|}.

(** *** Orderings *)

(** [ORDER BY slug ASC] compares byte-wise, as Python's [sorted] does on
    the ASCII slugs. *)
Definition by_slug (a b : TermsAndConditions) : Prop :=
  String.le (slug a) (slug b).

(** [ORDER BY date_active ASC]; NULL first. *)
Definition date_le (x y : option datetime) : Prop :=
  match x, y with
  | None, _ => True
  | Some _, None => False
  | Some a, Some b => a ≤ b
  end.

Definition by_date_active (a b : TermsAndConditions) : Prop :=
  date_le (date_active a) (date_active b).

(** How the backend orders a boolean column ascending. *)
Definition bool_asc (true_first : bool) (x y : bool) : Prop :=
  if true_first then (y → x) else (x → y).

(** [ORDER BY optional ASC, slug ASC] and [ORDER BY optional DESC, slug ASC] *)
Definition by_optional_slug (true_first : bool) (a b : TermsAndConditions) : Prop :=
  (bool_asc true_first (optional a) (optional b) ∧ optional a ≠ optional b)
  ∨ (optional a = optional b ∧ String.le (slug a) (slug b)).

Definition by_desc_optional_slug (true_first : bool) (a b : TermsAndConditions) : Prop :=
  by_optional_slug (negb true_first) a b.

Global Instance date_le_dec x y : Decision (date_le x y).
Proof. destruct x, y; simpl; apply _. Defined.
Global Instance by_slug_dec : RelDecision by_slug.
Proof. intros a b. unfold by_slug. apply _. Defined.
Global Instance by_date_active_dec : RelDecision by_date_active.
Proof. intros a b. unfold by_date_active. apply _. Defined.
Global Instance bool_asc_dec f x y : Decision (bool_asc f x y).
Proof. unfold bool_asc. destruct f; apply _. Defined.
Global Instance by_optional_slug_dec f : RelDecision (by_optional_slug f).
Proof. intros a b. unfold by_optional_slug. apply _. Defined.

(** [qs.order_by(...)]: a new queryset, not yet evaluated, with the
    ordering replaced. The ordering may depend on the backend the query
    runs on. *)
Definition order_by (R : Database → relation TermsAndConditions)
    `{∀ db, RelDecision (R db)} (qs : QuerySet) : QuerySet := {|
  selection := selection qs;
  ordering := λ db, merge_sort (R db);
  result_cache := None
|}.

(** [Meta.ordering = ['-date_active']], the ordering of a queryset nobody
    has ordered. *)
Definition Meta_ordering (db : Database) : list TermsAndConditions → list TermsAndConditions :=
  merge_sort (flip by_date_active).

(** [TermsAndConditions.objects.filter(id__in=ids)] for a list [ids]. *)
Definition filter_id_in (ids : list Z) : QuerySet := {|
  selection := λ db,
    inr (List.filter (λ t, bool_decide (id t ∈ ids)) (termsandconditions db));
  ordering := Meta_ordering;
  result_cache := None
|}.

(** [TermsAndConditions.objects.filter(id__in=value)] for whatever value
    was passed: a list, a queryset (a subquery on its primary keys), or
    something that cannot be iterated. *)
Definition objects_filter_id_in (value : PyVal) : Result QuerySet :=
  match value with
  | VList ids => inr (filter_id_in ids)
  | VQuerySet sub =>
      inr {| selection := λ db,
               result_bind (selection sub db) (λ rows,
                 inr (List.filter (λ t, bool_decide (id t ∈ id <$> rows))
                                  (termsandconditions db)));
             ordering := Meta_ordering;
             result_cache := None |}
  | VTerms _ | VNone => inl TypeError
  end.

(** [filter(date_active__isnull=False, date_active__lte=now)] *)
Definition activated (now : datetime) (t : TermsAndConditions) : bool :=
  match date_active t with
  | Some d => bool_decide (d ≤ now)
  | None => false
  end.

(** [.latest('date_active')]: the first row of [ORDER BY date_active DESC],
    [DoesNotExist] when there is none. *)
Definition latest_date_active (rows : list TermsAndConditions) : Result TermsAndConditions :=
  match merge_sort (flip by_date_active) rows with
  | t :: _ => inr t
  | [] => inl DoesNotExist
  end.

(** ** The cache, the log, and the effects of a call *)

Inductive Level := DEBUG | ERROR.

(** [cache]: key ↦ (pickled value, absolute expiry time).
    [log]: the records emitted on [LOGGER], latest first. *)
Record World := {
  cache : gmap string (PyVal * Z);
  log : list (Level * string)
}.

(** A call may read and write the world and may raise; what it did to the
    world before raising stays done. *)
Definition M (A : Type) : Type := World → Result A * World.

Definition ret {A} (a : A) : M A := λ w, (inr a, w).
Definition raise {A} (e : Exn) : M A := λ w, (inl e, w).
Definition bind {A B} (m : M A) (k : A → M B) : M B := λ w,
  match m w with
  | (inl e, w') => (inl e, w')
  | (inr a, w') => k a w'
  end.
Definition lift {A} (r : Result A) : M A := λ w, (r, w).

Notation "'let*' x := m 'in' k" := (bind m (λ x, k))
  (at level 10, x name, m at level 100, k at level 200, only parsing).
Notation "m ;; k" := (bind m (λ _, k))
  (at level 100, k at level 200, right associativity, only parsing).

(** [try: body except ...: handler] *)
Definition try_except {A} (body : M A) (handler : Exn → M A) : M A := λ w,
  match body w with
  | (inl e, w') => handler e w'
  | (inr a, w') => (inr a, w')
  end.

Definition LOGGER (level : Level) (message : string) : M unit := λ w,
  (inr (), {| cache := cache w; log := (level, message) :: log w |}).

Section Cache.
Context (db : Database) (now : datetime).

(** [cache.get(key)]: [None] when the key is missing or has expired
    (an entry is live strictly before its expiry time). *)
Definition cache_get (key : string) : M PyVal := λ w,
  match cache w !! key with
  | Some (v, expiry) => if bool_decide (now < expiry) then (inr v, w) else (inr VNone, w)
  | None => (inr VNone, w)
  end.

(** Pickling: a queryset is fetched first, other values are stored as
    they are. The queryset object itself keeps the fetched rows. *)
Definition pickle (value : PyVal) : Result PyVal :=
  match value with
  | VQuerySet qs => result_bind (fetch_all db qs) (λ qs', inr (VQuerySet qs'))
  | _ => inr value
  end.

(** [cache.set(key, value, timeout)]; yields the value as the caller's
    variable now refers to it. *)
Definition cache_set (key : string) (value : PyVal) (timeout : Z) : M PyVal := λ w,
  match pickle value with
  | inl e => (inl e, w)
  | inr v => (inr v, {| cache := <[key := (v, now + timeout)]> (cache w); log := log w |})
  end.
End Cache.

(** ** [UserTermsAndConditions] *)

(** Construction: [date_accepted] has [default=timezone.now]; the argument
    is [None] when the caller does not pass the field, [Some d] when the
    caller passes [d] (which may be [None], Python's null). *)
Definition UserTermsAndConditions_init (now : datetime)
    (user_id terms_id : Z) (ip : option string)
    (date_accepted_arg : option (option datetime)) : UserTermsAndConditions := {|
  user := user_id;
  terms := terms_id;
  ip_address := ip;
  date_accepted := default (Some now) date_accepted_arg
|}.

(** [self.terms]: the related row. *)
Definition related_terms (db : Database) (self : UserTermsAndConditions)
    : Result TermsAndConditions :=
  match List.find (λ t, bool_decide (id t = terms self)) (termsandconditions db) with
  | Some t => inr t
  | None => inl DoesNotExist
  end.

(** [UserTermsAndConditions.clean]; [super().clean()] does nothing.
    Python's [and] looks at [self.terms] only when [date_accepted] is
    [None]. *)
Definition clean (db : Database) (self : UserTermsAndConditions) : Result unit :=
  if bool_decide (date_accepted self = None)
  then
    result_bind (related_terms db self) (λ self_terms,
      if negb (optional self_terms)
      then inl (ValidationError
        "Mapping between users and mandatory terms must have 'date_accepted' set.")
      else inr ())
  else inr ().

(** Django's [Model.full_clean], as far as this model customises it. *)
Definition full_clean (db : Database) (self : UserTermsAndConditions) : Result unit :=
  clean db self.

(** Django's [Model.save] for a new record: an INSERT under
    [unique_together = ('user', 'terms')]. It does not call [clean]. *)
Definition save (db : Database) (self : UserTermsAndConditions) : Result Database :=
  if existsb (λ ut, bool_decide (user ut = user self) && bool_decide (terms ut = terms self))
             (usertermsandconditions db)
  then inl IntegrityError
  else inr {| termsandconditions := termsandconditions db;
              usertermsandconditions := usertermsandconditions db ++ [self];
              true_sorts_first := true_sorts_first db;
              userterms_failure := userterms_failure db |}.

(** A form-backed write (the admin site): validate, then save. *)
Definition validated_save (db : Database) (self : UserTermsAndConditions) : Result Database :=
  result_bind (full_clean db self) (λ _, save db self).

(** ** [TermsAndConditions]: the resolvers *)

Section Resolvers.
Context (settings : Settings) (db : Database) (now : datetime).

Definition get_active (slug_arg : string) : M PyVal :=
  let* active_terms := cache_get now ("tandc.active_terms_" +:+ slug_arg) in
  match active_terms with
  | VNone =>
      try_except
        (let* found := lift (latest_date_active
               (List.filter (λ t, activated now t && bool_decide (slug t = slug_arg))
                            (termsandconditions db))) in
         cache_set db now ("tandc.active_terms_" +:+ slug_arg) (VTerms found)
                   (TERMS_CACHE_SECONDS settings))
        (λ exc,
          match exc with
          | DoesNotExist =>
              LOGGER ERROR "Requested Terms and Conditions that Have Not Been Created.";;
              ret VNone
          | _ => raise exc
          end)
  | _ => ret active_terms
  end.

(** The body of the cache-miss branch of [get_active_terms_ids]: the ids
    of the latest activated row of every slug, in slug order. *)
Definition active_terms_dict : gmap string Z :=
  foldl (λ d active_terms, <[slug active_terms := id active_terms]> d) ∅
        (merge_sort by_date_active
           (List.filter (activated now) (termsandconditions db))).

Definition compute_active_terms_ids : list Z :=
  (merge_sort (λ a b, String.le a.1 b.1) (map_to_list active_terms_dict)).*2.

Definition get_active_terms_ids : M PyVal :=
  let* active_terms_ids := cache_get now "tandc.active_terms_ids" in
  match active_terms_ids with
  | VNone =>
      cache_set db now "tandc.active_terms_ids" (VList compute_active_terms_ids)
                (TERMS_CACHE_SECONDS settings)
  | _ => ret active_terms_ids
  end.

Definition get_active_terms_list : M PyVal :=
  let* active_terms_list := cache_get now "tandc.active_terms_list" in
  match active_terms_list with
  | VNone =>
      let* ids := get_active_terms_ids in
      let* filtered := lift (objects_filter_id_in ids) in
      cache_set db now "tandc.active_terms_list"
                (VQuerySet (order_by (λ _, by_slug) filtered))
                (TERMS_CACHE_SECONDS settings)
  | _ => ret active_terms_list
  end.

(** Attribute lookup [value.exclude]: only a queryset has it. *)
Definition as_queryset (value : PyVal) : Result QuerySet :=
  match value with
  | VQuerySet qs => inr qs
  | _ => inl AttributeError
  end.

(** The two [if]s at the head of [get_active_terms_not_agreed_to]. *)
Definition excluded_by_perm (u : User) : bool :=
  match TERMS_EXCLUDE_USERS_WITH_PERM settings with
  | Some perm => has_perm u perm && negb (is_superuser u)
  | None => false
  end.

Definition not_agreed_key (u : User) (skip_optional : bool) : string :=
  "tandc.not_agreed_terms_" +:+ get_username u
    +:+ (if skip_optional then SKIP_OPTIONAL_CACHE_KEY_SUFFIX else "").

Definition get_active_terms_not_agreed_to (u : User) (skip_optional : bool) : M PyVal :=
  if excluded_by_perm u then ret (VList [])
  else
    let* not_agreed_terms := cache_get now (not_agreed_key u skip_optional) in
    match not_agreed_terms with
    | VNone =>
        try_except
          (LOGGER DEBUG "Not Agreed Terms";;
           let* active_terms_list := get_active_terms_list in
           let* active_qs := lift (as_queryset active_terms_list) in
           let not_agreed_terms :=
             exclude (userterms__in (filter_user_accepted u)) active_qs in
           let optional_cond :=
             if skip_optional then Q_optional
             else Q_and Q_optional (userterms__in (filter_user u)) in
           let not_agreed_terms := exclude optional_cond not_agreed_terms in
           let not_agreed_terms :=
             order_by (λ d, by_optional_slug (true_sorts_first d)) not_agreed_terms in
           let* not_agreed_terms := lift (fetch_all db not_agreed_terms) in
           let not_agreed_terms :=
             match rows_of not_agreed_terms with
             | first :: _ =>
                 if optional first
                 then order_by (λ d, by_desc_optional_slug (true_sorts_first d))
                               not_agreed_terms
                 else not_agreed_terms
             | [] => not_agreed_terms
             end in
           cache_set db now (not_agreed_key u skip_optional)
                     (VQuerySet not_agreed_terms) (TERMS_CACHE_SECONDS settings))
          (λ exc,
            match exc with
            | TypeError | DoesNotExist => ret (VList [])
            | _ => raise exc
            end)
    | _ => ret not_agreed_terms
    end.
End Resolvers.

(** ** The fixture of [tests.py] ([TermsAndConditionsTests.setUp])

    Dates are written as the number YYYYMMDD. *)
Module Fixture.
Definition make_terms (i : Z) (s n : string) (version : Z) (txt : string)
    (active : datetime) (opt : bool) : TermsAndConditions := {|
  id := i; slug := s; name := n; version_number := version;
  text := Some txt; info := None; date_active := Some active;
  date_created := 20111231; optional := opt
|}.

Definition terms1 := make_terms 1 "site-terms" "Site Terms" 100
  "Site Terms and Conditions 1" 20120101 false.
Definition terms2 := make_terms 2 "site-terms" "Site Terms" 200
  "Site Terms and Conditions 2" 20120105 false.
Definition terms3 := make_terms 3 "contrib-terms" "Contributor Terms" 150
  "Contributor Terms and Conditions 1.5" 20120101 false.
Definition terms4 := make_terms 4 "contrib-terms" "Contributor Terms" 200
  "Contributor Terms and Conditions 2" 21000101 false.
Definition terms5 := make_terms 5 "optional-terms" "Optional Terms" 160
  "Optional Terms and Conditions 1.6" 20120201 true.
Definition terms6 := make_terms 6 "optional-terms" "Optional Terms" 200
  "Optional Terms and Conditions 2" 21000201 true.

Definition skip_perm : string := "auth.can_skip_t&c".

Definition su : User := {|
  pk := 1; username := "su"; is_active := true; is_superuser := true;
  user_permissions := [] |}.
Definition user1 : User := {|
  pk := 2; username := "user1"; is_active := true; is_superuser := false;
  user_permissions := [] |}.
Definition user3 : User := {|
  pk := 4; username := "user3"; is_active := true; is_superuser := false;
  user_permissions := [skip_perm] |}.
(** [su] after [self.su.user_permissions.add(self.skip_perm)]. *)
Definition su_granted : User := {|
  pk := 1; username := "su"; is_active := true; is_superuser := true;
  user_permissions := [skip_perm] |}.

Definition test_settings : Settings := {|
  DEFAULT_TERMS_SLUG := "site-terms";
  TERMS_CACHE_SECONDS := 30;
  TERMS_EXCLUDE_USERS_WITH_PERM := Some skip_perm
|}.

Definition database (records : list UserTermsAndConditions) : Database := {|
  termsandconditions := [terms1; terms2; terms3; terms4; terms5; terms6];
  usertermsandconditions := records;
  true_sorts_first := false;
  userterms_failure := None
|}.

(** The same tables while lookups in the acceptance table fail with [e]. *)
Definition failing (e : Exn) (records : list UserTermsAndConditions) : Database := {|
  termsandconditions := termsandconditions (database records);
  usertermsandconditions := records;
  true_sorts_first := false;
  userterms_failure := Some e
|}.

Definition today : datetime := 20200101.

Definition fresh : World := {| cache := ∅; log := [] |}.

(** The ids of the rows a call returned, [None] if it raised. *)
Definition returned_ids (outcome : Result PyVal * World) : option (list Z) :=
  match outcome.1 with
  | inr v => Some (id <$> sequence v)
  | inl _ => None
  end.
End Fixture.

(** * Vocabulary of the properties *)

(** The settings with [TERMS_EXCLUDE_USERS_WITH_PERM] left at its default. *)
Definition without_exemption (settings : Settings) : Settings := {|
  DEFAULT_TERMS_SLUG := DEFAULT_TERMS_SLUG settings;
  TERMS_CACHE_SECONDS := TERMS_CACHE_SECONDS settings;
  TERMS_EXCLUDE_USERS_WITH_PERM := None
|}.

(** The two exclusions of [get_active_terms_not_agreed_to], row by row:
    some record of the user on the terms is accepted; some record of the
    user on the terms exists. [kept] is what is left of [rows] after both. *)
Definition accepted_by (db : Database) (u : User) (t : TermsAndConditions) : bool :=
  existsb (λ ut, filter_user_accepted u ut && bool_decide (terms ut = id t))
          (usertermsandconditions db).

Definition seen_by (db : Database) (u : User) (t : TermsAndConditions) : bool :=
  existsb (λ ut, filter_user u ut && bool_decide (terms ut = id t))
          (usertermsandconditions db).

Definition kept (db : Database) (u : User) (skip_optional : bool)
    (rows : list TermsAndConditions) : list TermsAndConditions :=
  List.filter (λ t, negb (if skip_optional then optional t
                          else optional t && seen_by db u t))
    (List.filter (λ t, negb (accepted_by db u t)) rows).

(** The order in which the rows come back: the first ordering, and the
    second one when the first puts an optional policy at the head. *)
Definition arranged (db : Database) (rows : list TermsAndConditions)
    : list TermsAndConditions :=
  match merge_sort (by_optional_slug (true_sorts_first db)) rows with
  | first :: rest =>
      if optional first
      then merge_sort (by_desc_optional_slug (true_sorts_first db)) rows
      else first :: rest
  | [] => []
  end.

(** The [except (TypeError, UserTermsAndConditions.DoesNotExist)] clause. *)
Definition absorbed (e : Exn) (w : World) : Result PyVal * World :=
  match e with
  | TypeError | DoesNotExist => (inr (VList []), w)
  | _ => (inl e, w)
  end.

(** The world after a log record, and after a [cache.set]. *)
Definition logged (level : Level) (message : string) (w : World) : World :=
  {| cache := cache w; log := (level, message) :: log w |}.

Definition stored (key : string) (v : PyVal) (expiry : Z) (w : World) : World :=
  {| cache := <[key := (v, expiry)]> (cache w); log := log w |}.

(** The queryset built on a cache miss, before it is first evaluated, and
    the one that is stored. *)
Definition first_queryset (u : User) (skip_optional : bool) (active_qs : QuerySet)
    : QuerySet :=
  order_by (λ d, by_optional_slug (true_sorts_first d))
    (exclude (if skip_optional then Q_optional
              else Q_and Q_optional (userterms__in (filter_user u)))
       (exclude (userterms__in (filter_user_accepted u)) active_qs)).

Definition final_queryset (evaluated : QuerySet) : QuerySet :=
  match rows_of evaluated with
  | first :: _ =>
      if optional first
      then order_by (λ d, by_desc_optional_slug (true_sorts_first d)) evaluated
      else evaluated
  | [] => evaluated
  end.

(** The evaluated queryset [get_active_terms_list] returns and stores. *)
Definition listed (ids : list Z) (rows : list TermsAndConditions) : QuerySet := {|
  selection := selection (filter_id_in ids);
  ordering := λ _, merge_sort by_slug;
  result_cache := Some rows
|}.

(** Under the two global keys the cache holds, if anything, what
    [get_active_terms_ids] and [get_active_terms_list] store there. (The
    keys are shared with [get_active] for the slugs [ids] and [list].) *)
Definition written_by_resolvers (w : World) : Prop :=
  (∀ v expiry, cache w !! "tandc.active_terms_ids" = Some (v, expiry) →
     ∃ ids, v = VList ids)
  ∧ (∀ v expiry, cache w !! "tandc.active_terms_list" = Some (v, expiry) →
     ∃ ids rows, v = VQuerySet (listed ids rows)).

(** The user has an acceptance record for the terms / an accepted one. *)
Definition has_record (db : Database) (u : User) (t : TermsAndConditions) : Prop :=
  ∃ ut, ut ∈ usertermsandconditions db ∧ user ut = pk u ∧ terms ut = id t.

Definition has_accepted (db : Database) (u : User) (t : TermsAndConditions) : Prop :=
  ∃ ut, ut ∈ usertermsandconditions db ∧ user ut = pk u ∧ terms ut = id t
        ∧ is_Some (date_accepted ut).

(** The call finds no live entry under the user's key and computes. *)
Definition computes_afresh (now : datetime) (u : User) (skip_optional : bool)
    (w : World) : Prop :=
  (cache_get now (not_agreed_key u skip_optional) w).1 = inr VNone.

(** Neither global entry is live: both resolvers compute. *)
Definition computes_active_list (now : datetime) (w : World) : Prop :=
  (cache_get now "tandc.active_terms_list" w).1 = inr VNone
  ∧ (cache_get now "tandc.active_terms_ids" w).1 = inr VNone.

(** The rows of the active list as computed from the tables. *)
Definition active_terms_rows (db : Database) (now : datetime)
    : list TermsAndConditions :=
  merge_sort by_slug
    (List.filter (λ t, bool_decide (id t ∈ compute_active_terms_ids db now))
                 (termsandconditions db)).

(** Mandatory policies first, then the optional ones, each group in
    ascending order of slug. *)
Definition mandatory_first (rows : list TermsAndConditions) : Prop :=
  ∃ mandatory optionals,
    rows = mandatory ++ optionals
    ∧ Forall (λ t, optional t = false) mandatory
    ∧ Forall (λ t, optional t = true) optionals
    ∧ StronglySorted by_slug mandatory
    ∧ StronglySorted by_slug optionals.

(** Whatever is cached for a user and a flag is in that order. *)
Definition cached_results_arranged (w : World) : Prop :=
  ∀ u skip_optional v expiry,
    cache w !! not_agreed_key u skip_optional = Some (v, expiry) →
    mandatory_first (sequence v).

(** A row of the slug that has been activated and is not in the future. *)
Definition qualifies (db : Database) (now : datetime) (s : string)
    (t : TermsAndConditions) : Prop :=
  t ∈ termsandconditions db ∧ slug t = s
  ∧ ∃ d, date_active t = Some d ∧ d ≤ now.

(** The loop [active_terms_dict[active_terms.slug] = active_terms.id]. *)
Definition dict_of (rows : list TermsAndConditions) : gmap string Z :=
  foldl (λ d active_terms, <[slug active_terms := id active_terms]> d) ∅ rows.



(** The database with another [TermsAndConditions] table. *)
Definition with_termsandconditions (rows : list TermsAndConditions) (db : Database)
    : Database := {|
  termsandconditions := rows;
  usertermsandconditions := usertermsandconditions db;
  true_sorts_first := true_sorts_first db;
  userterms_failure := userterms_failure db
|}.

(** The key of [get_active] for a slug, and the call finding nothing live
    under it. *)
Definition active_terms_key (s : string) : string := "tandc.active_terms_" +:+ s.

Definition get_active_computes (now : datetime) (s : string) (w : World) : Prop :=
  (cache_get now (active_terms_key s) w).1 = inr VNone.

(** No two activated rows of one slug have the same [date_active]. *)
Definition no_ties (db : Database) (now : datetime) : Prop :=
  ∀ t t', t ∈ termsandconditions db → t' ∈ termsandconditions db →
    activated now t = true → activated now t' = true →
    slug t = slug t' → date_active t = date_active t' → t = t'.

(** [unique_together = ('user', 'terms')] holds in the acceptance table. *)
Definition unique_together (db : Database) : Prop :=
  NoDup ((λ ut, (user ut, terms ut)) <$> usertermsandconditions db).

(** Every stored acceptance record passes [clean]. *)
Definition records_are_clean (db : Database) : Prop :=
  ∀ ut, ut ∈ usertermsandconditions db → clean db ut = inr ().

(** * Properties *)

(** ** The tests of [tests.py] that call the resolvers directly *)

Example test_get_active_terms_ids :
  (get_active_terms_ids Fixture.test_settings (Fixture.database []) Fixture.today
     Fixture.fresh).1 = inr (VList [3; 5; 2]).
Proof. vm_compute. reflexivity. Qed.

Example test_get_active_terms_list :
  Fixture.returned_ids
    (get_active_terms_list Fixture.test_settings (Fixture.database []) Fixture.today
       Fixture.fresh) = Some [3; 5; 2].
Proof. vm_compute. reflexivity. Qed.

Example test_get_active_terms_not_agreed_to_only_mandatory :
  Fixture.returned_ids
    (get_active_terms_not_agreed_to Fixture.test_settings (Fixture.database [])
       Fixture.today Fixture.user1 true Fixture.fresh) = Some [3; 2].
Proof. vm_compute. reflexivity. Qed.

Example test_get_active_terms_not_agreed_to_including_optional :
  Fixture.returned_ids
    (get_active_terms_not_agreed_to Fixture.test_settings (Fixture.database [])
       Fixture.today Fixture.user1 false Fixture.fresh) = Some [3; 2; 5].
Proof. vm_compute. reflexivity. Qed.

Example test_user_is_excluded :
  (get_active_terms_not_agreed_to Fixture.test_settings (Fixture.database [])
     Fixture.today Fixture.user3 false Fixture.fresh).1 = inr (VList []).
Proof. vm_compute. reflexivity. Qed.

Example test_superuser_is_not_implicitly_excluded :
  Fixture.returned_ids
    (get_active_terms_not_agreed_to Fixture.test_settings (Fixture.database [])
       Fixture.today Fixture.su true Fixture.fresh) = Some [3; 2].
Proof. vm_compute. reflexivity. Qed.

(** [test_superuser_cannot_skip] is [granted_superuser_is_not_exempt] below. *)

Example test_get_active :
  (get_active Fixture.test_settings (Fixture.database []) Fixture.today "site-terms"
     Fixture.fresh).1 = inr (VTerms Fixture.terms2)
  ∧ (get_active Fixture.test_settings (Fixture.database []) Fixture.today "contrib-terms"
     Fixture.fresh).1 = inr (VTerms Fixture.terms3).
Proof. split; vm_compute; reflexivity. Qed.

(** The example scenario of the specification: with no records the user
    gets contrib-terms, site-terms, optional-terms; once the two mandatory
    policies are accepted, optional-terms alone; once that one is seen but
    not accepted, nothing, with either flag. *)
Example scenario_of_the_specification :
  let accepted t := UserTermsAndConditions_init Fixture.today 2 t None None in
  let seen t := UserTermsAndConditions_init Fixture.today 2 t None (Some None) in
  let outstanding records skip_optional :=
    Fixture.returned_ids
      (get_active_terms_not_agreed_to Fixture.test_settings (Fixture.database records)
         Fixture.today Fixture.user1 skip_optional Fixture.fresh) in
  outstanding [] false = Some [3; 2; 5]
  ∧ outstanding [accepted 3; accepted 2] false = Some [5]
  ∧ outstanding [accepted 3; accepted 2; seen 5] false = Some []
  ∧ outstanding [accepted 3; accepted 2; seen 5] true = Some [].
Proof. repeat split; vm_compute; reflexivity. Qed.

(** The workaround at work: on a backend that sorts [True] first the
    mandatory policies still come first. *)
Example true_first_backend_is_corrected :
  Fixture.returned_ids
    (get_active_terms_not_agreed_to Fixture.test_settings
       {| termsandconditions := termsandconditions (Fixture.database []);
          usertermsandconditions := [];
          true_sorts_first := true;
          userterms_failure := None |}
       Fixture.today Fixture.user1 false Fixture.fresh) = Some [3; 2; 5].
Proof. vm_compute. reflexivity. Qed.

(** The key of [get_active] for the slug [ids] is the key of
    [get_active_terms_ids]: after that call, [get_active] answers with the
    list of ids it finds there. This is why the properties below say what
    the cache holds under the global keys, or that a call computes. *)
Example get_active_shares_the_global_keys :
  (get_active Fixture.test_settings (Fixture.database []) Fixture.today "ids"
     (get_active_terms_ids Fixture.test_settings (Fixture.database []) Fixture.today
        Fixture.fresh).2).1 = inr (VList [3; 5; 2]).
Proof. vm_compute. reflexivity. Qed.

(** ** Construction and validation of acceptance records *)

(** C10: a record constructed without [date_accepted] is accepted now; the
    merely-seen state (null) arises only when null is passed explicitly. *)
Theorem date_accepted_defaults_to_now (now : datetime) (user_id terms_id : Z)
    (ip : option string) (arg : option (option datetime)) :
  date_accepted (UserTermsAndConditions_init now user_id terms_id ip None) = Some now
  ∧ (date_accepted (UserTermsAndConditions_init now user_id terms_id ip arg) = None
     ↔ arg = Some None).
Proof.
  split; [reflexivity|].
  destruct arg as [[d|]|]; simpl; split; intros Heq; by try discriminate Heq.
Qed.

(** C6, as the claim states it, fails: [save] does not validate, so a
    record on the mandatory [terms2] with null [date_accepted] is stored. *)
Lemma save_stores_unaccepted_mandatory :
  let record := UserTermsAndConditions_init Fixture.today 2 2 None (Some None) in
  related_terms (Fixture.database []) record = inr Fixture.terms2
  ∧ optional Fixture.terms2 = false
  ∧ date_accepted record = None
  ∧ ∃ db', save (Fixture.database []) record = inr db'
           ∧ record ∈ usertermsandconditions db'.
Proof.
  simpl. repeat split. eexists. split; [reflexivity|]. simpl. set_solver.
Qed.

(** C6, amended: [clean] raises [ValidationError] for a record with null
    [date_accepted] on a mandatory policy, a write that validates first is
    rejected with that error before anything is stored, and whatever such a
    write does store on a mandatory policy has [date_accepted] set. *)
Theorem clean_rejects_unaccepted_mandatory (db : Database)
    (self : UserTermsAndConditions) (self_terms : TermsAndConditions) :
  related_terms db self = inr self_terms →
  optional self_terms = false →
  (date_accepted self = None →
     ∃ message, clean db self = inl (ValidationError message)
                ∧ validated_save db self = inl (ValidationError message))
  ∧ (∀ db', validated_save db self = inr db' → is_Some (date_accepted self)).
Proof.
  intros Hrel Hmand. unfold validated_save, full_clean, clean. split.
  - intros ->. simpl. rewrite Hrel. simpl. rewrite Hmand. simpl. eauto.
  - intros db'. destruct (date_accepted self); simpl; [eauto|].
    rewrite Hrel. simpl. rewrite Hmand. discriminate.
Qed.

Lemma clean_rejects_unaccepted_mandatory_witness :
  let record := UserTermsAndConditions_init Fixture.today 2 2 None (Some None) in
  ∃ message, clean (Fixture.database []) record = inl (ValidationError message)
             ∧ validated_save (Fixture.database []) record
               = inl (ValidationError message).
Proof.
  refine (proj1 (clean_rejects_unaccepted_mandatory (Fixture.database [])
                   (UserTermsAndConditions_init Fixture.today 2 2 None (Some None))
                   Fixture.terms2 _ _) _); reflexivity.
Defined.

(** ** The exemption by permission *)

Lemma excluded_by_perm_superuser settings u :
  is_superuser u = true → excluded_by_perm settings u = false.
Proof.
  intros Hsu. unfold excluded_by_perm.
  destruct (TERMS_EXCLUDE_USERS_WITH_PERM settings); [|done].
  rewrite Hsu. simpl. apply andb_false_r.
Qed.

Lemma excluded_by_perm_granted settings u perm :
  TERMS_EXCLUDE_USERS_WITH_PERM settings = Some perm →
  is_superuser u = false → is_active u = true → perm ∈ user_permissions u →
  excluded_by_perm settings u = true.
Proof.
  intros Hperm Hsu Hact Hin. unfold excluded_by_perm, has_perm, backend_has_perm.
  rewrite Hperm, Hsu, Hact. simpl. by rewrite bool_decide_eq_true_2.
Qed.

(** C1, as the claim states it, fails: the superuser of
    [test_superuser_cannot_skip], who holds the exemption permission by an
    explicit grant, still gets the two outstanding mandatory policies. *)
Lemma granted_superuser_is_not_exempt :
  TERMS_EXCLUDE_USERS_WITH_PERM Fixture.test_settings = Some Fixture.skip_perm
  ∧ Fixture.skip_perm ∈ user_permissions Fixture.su_granted
  ∧ Fixture.returned_ids
      (get_active_terms_not_agreed_to Fixture.test_settings (Fixture.database [])
         Fixture.today Fixture.su_granted true Fixture.fresh) = Some [3; 2].
Proof.
  split; [reflexivity|]. split; [unfold Fixture.su_granted; simpl; set_solver|].
  vm_compute. reflexivity.
Qed.

(** ** The orderings are total preorders *)

Global Instance by_slug_total : Total by_slug.
Proof. intros a b. unfold by_slug. apply total, _. Qed.
Global Instance by_slug_trans : Transitive by_slug.
Proof. intros a b c. unfold by_slug. apply transitivity. Qed.

Global Instance date_le_total : Total date_le.
Proof. intros [x|] [y|]; simpl; auto. lia. Qed.
Global Instance date_le_trans : Transitive date_le.
Proof. intros [x|] [y|] [z|]; simpl; auto; try lia; done. Qed.

Global Instance by_date_active_total : Total by_date_active.
Proof. intros a b. unfold by_date_active. apply total, _. Qed.
Global Instance by_date_active_trans : Transitive by_date_active.
Proof. intros a b c. unfold by_date_active. apply transitivity. Qed.

Global Instance by_optional_slug_total f : Total (by_optional_slug f).
Proof.
  intros a b. unfold by_optional_slug, bool_asc.
  destruct (total String.le (slug a) (slug b));
    destruct f, (optional a), (optional b); simpl; naive_solver.
Qed.
Global Instance by_optional_slug_trans f : Transitive (by_optional_slug f).
Proof.
  intros a b c. unfold by_optional_slug, bool_asc.
  intros [[H1 N1]|[E1 L1]] [[H2 N2]|[E2 L2]].
  - destruct f, (optional a), (optional b), (optional c); simpl in *; naive_solver.
  - left. rewrite <-E2. done.
  - left. rewrite E1. done.
  - right. split; [congruence|]. by etrans.
Qed.

Global Instance fst_le_total {A} : Total (λ a b : string * A, String.le a.1 b.1).
Proof. intros a b. apply total, _. Qed.
Global Instance fst_le_trans {A} : Transitive (λ a b : string * A, String.le a.1 b.1).
Proof. intros a b c. apply transitivity. Qed.

(** ** What a cache miss computes *)

Lemma cache_get_world now k w : (cache_get now k w).2 = w.
Proof. unfold cache_get. by repeat case_match. Qed.

Lemma miss_unfold settings db now u skip_optional w :
  excluded_by_perm settings u = false →
  (cache_get now (not_agreed_key u skip_optional) w).1 = inr VNone →
  get_active_terms_not_agreed_to settings db now u skip_optional w =
    match get_active_terms_list settings db now (logged DEBUG "Not Agreed Terms" w) with
    | (inl e, w1) => absorbed e w1
    | (inr lst, w1) =>
        match as_queryset lst with
        | inl e => absorbed e w1
        | inr active_qs =>
            match fetch_all db (first_queryset u skip_optional active_qs) with
            | inl e => absorbed e w1
            | inr evaluated =>
                match pickle db (VQuerySet (final_queryset evaluated)) with
                | inl e => absorbed e w1
                | inr v =>
                    (inr v, stored (not_agreed_key u skip_optional) v
                                   (now + TERMS_CACHE_SECONDS settings) w1)
                end
            end
        end
    end.
Proof.
  intros Hex Hmiss. unfold get_active_terms_not_agreed_to. rewrite Hex.
  pose proof (cache_get_world now (not_agreed_key u skip_optional) w) as Hw.
  unfold bind at 1. destruct (cache_get _ _ w) as [r w0].
  simpl in Hw, Hmiss. subst r w0.
  unfold try_except, bind at 1, LOGGER. fold (logged DEBUG "Not Agreed Terms" w).
  unfold bind at 1.
  destruct (get_active_terms_list _ _ _ _) as [[e|lst] w1]; [by destruct e|].
  unfold bind at 1, lift.
  destruct (as_queryset lst) as [e|active_qs]; [by destruct e|].
  unfold bind at 1. fold (first_queryset u skip_optional active_qs).
  destruct (fetch_all db _) as [e|evaluated]; [by destruct e|].
  fold (final_queryset evaluated). unfold cache_set.
  destruct (pickle db _) as [e|v]; [by destruct e|]. reflexivity.
Qed.

Lemma selection_first_queryset db u skip_optional active_qs :
  selection (first_queryset u skip_optional active_qs) db =
    match userterms_failure db with
    | Some e => inl e
    | None => result_bind (selection active_qs db)
                (λ rows, inr (kept db u skip_optional rows))
    end.
Proof.
  unfold first_queryset, kept, seen_by, accepted_by. simpl.
  unfold Q_and, Q_optional, userterms__in.
  destruct skip_optional, (userterms_failure db); simpl; try done;
    by destruct (selection active_qs db).
Qed.

Lemma fetch_all_first_queryset db u skip_optional active_qs :
  fetch_all db (first_queryset u skip_optional active_qs) =
    match userterms_failure db with
    | Some e => inl e
    | None =>
        result_bind (selection active_qs db) (λ rows,
          inr {| selection := selection (first_queryset u skip_optional active_qs);
                 ordering := λ d, merge_sort (by_optional_slug (true_sorts_first d));
                 result_cache :=
                   Some (merge_sort (by_optional_slug (true_sorts_first db))
                           (kept db u skip_optional rows)) |})
    end.
Proof.
  unfold fetch_all, query. rewrite selection_first_queryset. simpl.
  destruct (userterms_failure db); [done|].
  by destruct (selection active_qs db).
Qed.

Lemma pickle_final_queryset db sel rows :
  sel db = inr rows →
  ∃ qs, pickle db (VQuerySet (final_queryset
            {| selection := sel;
               ordering := λ d, merge_sort (by_optional_slug (true_sorts_first d));
               result_cache :=
                 Some (merge_sort (by_optional_slug (true_sorts_first db)) rows) |}))
          = inr (VQuerySet qs)
        ∧ selection qs = sel
        ∧ result_cache qs = Some (arranged db rows).
Proof.
  intros Hsel. unfold final_queryset, arranged, rows_of. simpl.
  destruct (merge_sort _ rows) as [|first rest] eqn:Hsort.
  - eexists. split; [reflexivity|]. done.
  - destruct (optional first).
    + unfold pickle, fetch_all, query. simpl. rewrite Hsel. simpl.
      eexists. split; [reflexivity|]. done.
    + eexists. split; [reflexivity|]. done.
Qed.

(** On a cache miss the call either ends in the [except] clause, with the
    exception of the listing, of the attribute lookup or of the acceptance
    table, or it returns and stores the evaluated queryset. *)
Lemma miss_cases settings db now u skip_optional w r w1 :
  excluded_by_perm settings u = false →
  (cache_get now (not_agreed_key u skip_optional) w).1 = inr VNone →
  get_active_terms_list settings db now (logged DEBUG "Not Agreed Terms" w) = (r, w1) →
  (∃ e, get_active_terms_not_agreed_to settings db now u skip_optional w = absorbed e w1
        ∧ (r = inl e
           ∨ (∃ lst, r = inr lst ∧ as_queryset lst = inl e)
           ∨ (∃ active_qs, r = inr (VQuerySet active_qs)
                ∧ (userterms_failure db = Some e
                   ∨ (userterms_failure db = None ∧ selection active_qs db = inl e)))))
  ∨ (∃ active_qs rows qs,
        r = inr (VQuerySet active_qs)
        ∧ userterms_failure db = None
        ∧ selection active_qs db = inr rows
        ∧ result_cache qs = Some (arranged db (kept db u skip_optional rows))
        ∧ get_active_terms_not_agreed_to settings db now u skip_optional w
          = (inr (VQuerySet qs),
             stored (not_agreed_key u skip_optional) (VQuerySet qs)
                    (now + TERMS_CACHE_SECONDS settings) w1)).
Proof.
  intros Hex Hmiss Hl. rewrite (miss_unfold _ _ _ _ _ _ Hex Hmiss), Hl.
  destruct r as [e|lst]; [left; eauto|].
  destruct (as_queryset lst) as [e|active_qs] eqn:Hq; [left; eauto 10|].
  assert (lst = VQuerySet active_qs) as ->.
  { destruct lst; simpl in Hq; congruence. }
  rewrite fetch_all_first_queryset.
  destruct (userterms_failure db) as [e|] eqn:Hfail; [left; eauto 10|].
  destruct (selection active_qs db) as [e|rows] eqn:Hsel; cbn [result_bind];
    [left; eauto 10|].
  right.
  destruct (pickle_final_queryset db (selection (first_queryset u skip_optional active_qs))
              (kept db u skip_optional rows)) as (qs & Hp & _ & Hrc).
  { rewrite selection_first_queryset, Hfail, Hsel. done. }
  rewrite Hp. eauto 10.
Qed.

(** ** The two global cache entries *)

Lemma not_agreed_key_ne_ids u skip_optional :
  not_agreed_key u skip_optional ≠ "tandc.active_terms_ids".
Proof. unfold not_agreed_key. intros H. vm_compute in H. discriminate H. Qed.

Lemma not_agreed_key_ne_list u skip_optional :
  not_agreed_key u skip_optional ≠ "tandc.active_terms_list".
Proof. unfold not_agreed_key. intros H. vm_compute in H. discriminate H. Qed.

Lemma written_by_resolvers_empty l : written_by_resolvers {| cache := ∅; log := l |}.
Proof. split; intros v e H; simpl in H; by rewrite lookup_empty in H. Qed.

Lemma written_by_resolvers_logged level message w :
  written_by_resolvers w → written_by_resolvers (logged level message w).
Proof. done. Qed.

Lemma written_by_resolvers_stored_other key v expiry w :
  key ≠ "tandc.active_terms_ids" → key ≠ "tandc.active_terms_list" →
  written_by_resolvers w → written_by_resolvers (stored key v expiry w).
Proof.
  intros N1 N2 [H1 H2]. split; intros v' e'; simpl; rewrite lookup_insert_ne by done; eauto.
Qed.

Lemma cache_get_cases now key w :
  cache_get now key w = (inr VNone, w)
  ∨ ∃ v expiry, cache w !! key = Some (v, expiry) ∧ now < expiry ∧ v ≠ VNone
                ∧ cache_get now key w = (inr v, w).
Proof.
  unfold cache_get. destruct (cache w !! key) as [[v e]|] eqn:Hk; [|by left].
  case_bool_decide; [|by left].
  destruct v; [by left|right; eauto 10..].
Qed.

Lemma cache_get_later now later key w :
  now ≤ later → cache_get now key w = (inr VNone, w) →
  cache_get later key w = (inr VNone, w).
Proof.
  unfold cache_get. intros Hle. destruct (cache w !! key) as [[v e]|]; [|done].
  repeat case_bool_decide; try done; lia.
Qed.

(** Under [written_by_resolvers], [get_active_terms_ids] returns a list and
    touches nothing but its own key. *)
Lemma get_active_terms_ids_written settings db now w :
  written_by_resolvers w →
  ∃ ids w1, get_active_terms_ids settings db now w = (inr (VList ids), w1)
    ∧ written_by_resolvers w1
    ∧ log w1 = log w
    ∧ (∀ k, k ≠ "tandc.active_terms_ids" → cache w1 !! k = cache w !! k).
Proof.
  intros Hwf. unfold get_active_terms_ids, bind.
  destruct (cache_get_cases now "tandc.active_terms_ids" w)
    as [->|(v & e & Hk & Hlive & Hv & ->)].
  - unfold cache_set. simpl. eexists _, _. split; [reflexivity|]. split; [|split; [done|]].
    + destruct Hwf as [H1 H2]. split; intros v' e'; simpl.
      * rewrite lookup_insert_eq. intros [= <- <-]. eauto.
      * rewrite lookup_insert_ne by done. eauto.
    + intros k Hne. simpl. by rewrite lookup_insert_ne.
  - destruct (proj1 Hwf _ _ Hk) as [ids ->]. eauto 10.
Qed.

(** Under [written_by_resolvers], [get_active_terms_list] returns an
    evaluated queryset of the stored shape and touches nothing but the two
    global keys. *)
Lemma get_active_terms_list_written settings db now w :
  written_by_resolvers w →
  ∃ ids rows w1,
    get_active_terms_list settings db now w = (inr (VQuerySet (listed ids rows)), w1)
    ∧ written_by_resolvers w1
    ∧ log w1 = log w
    ∧ (∀ k, k ≠ "tandc.active_terms_ids" → k ≠ "tandc.active_terms_list" →
            cache w1 !! k = cache w !! k).
Proof.
  intros Hwf. unfold get_active_terms_list. unfold bind at 1.
  destruct (cache_get_cases now "tandc.active_terms_list" w)
    as [->|(v & e & Hk & Hlive & Hv & ->)].
  - unfold bind at 1.
    destruct (get_active_terms_ids_written settings db now w Hwf)
      as (ids & w1 & -> & Hwf1 & Hlog & Hsame).
    unfold bind, lift, cache_set. simpl.
    eexists ids, _, _. split; [reflexivity|]. split; [|split; [done|]].
    + destruct Hwf1 as [H1 H2]. split; intros v' e'; simpl.
      * rewrite lookup_insert_ne by done. eauto.
      * rewrite lookup_insert_eq. intros [= <- <-]. eauto.
    + intros k N1 N2. simpl. rewrite lookup_insert_ne by done. by apply Hsame.
  - destruct (proj2 Hwf _ _ Hk) as (ids & rows & ->). eauto 10.
Qed.

(** ** Failures of the acceptance table *)

(** C7, as the claim states it, fails: when the acceptance table is
    unavailable ([OperationalError]) the call raises; nothing absorbs it. *)
Lemma unavailable_store_propagates :
  (get_active_terms_not_agreed_to Fixture.test_settings
     (Fixture.failing OperationalError []) Fixture.today Fixture.user1 false
     Fixture.fresh).1 = inl OperationalError.
Proof. vm_compute. reflexivity. Qed.

(** A computation during which the acceptance table fails with [e] ends
    in the [except] clause with [e], after the active list was obtained. *)
Lemma failing_lookup_outcome settings db now u skip_optional w e :
  written_by_resolvers w →
  excluded_by_perm settings u = false →
  (cache_get now (not_agreed_key u skip_optional) w).1 = inr VNone →
  userterms_failure db = Some e →
  ∃ w1,
    cache w1 !! not_agreed_key u skip_optional = cache w !! not_agreed_key u skip_optional
    ∧ get_active_terms_not_agreed_to settings db now u skip_optional w = absorbed e w1
    ∧ written_by_resolvers w1.
Proof.
  intros Hwf Hex Hmiss Hfail.
  destruct (get_active_terms_list_written settings db now
              (logged DEBUG "Not Agreed Terms" w))
    as (ids & rows & w1 & Hl & Hwf1 & _ & Hsame); [done|].
  exists w1. split.
  { rewrite Hsame; [done|apply not_agreed_key_ne_ids|apply not_agreed_key_ne_list]. }
  split; [|done].
  rewrite (miss_unfold _ _ _ _ _ _ Hex Hmiss), Hl. simpl as_queryset. cbv iota.
  by rewrite fetch_all_first_queryset, Hfail.
Qed.

(** C7, amended: when the lookup in the acceptance table fails during the
    computation (the user is not exempt and the cache has no entry for
    them), a [TypeError] or a [DoesNotExist] is absorbed and the call
    returns the empty list; any other exception reaches the caller. Either
    way nothing is stored under the user's key. *)
Theorem only_type_error_and_does_not_exist_are_absorbed (settings : Settings)
    (db : Database) (now : datetime) (u : User) (skip_optional : bool) (w : World)
    (e : Exn) :
  written_by_resolvers w →
  excluded_by_perm settings u = false →
  (cache_get now (not_agreed_key u skip_optional) w).1 = inr VNone →
  userterms_failure db = Some e →
  ∃ w1,
    cache w1 !! not_agreed_key u skip_optional = cache w !! not_agreed_key u skip_optional
    ∧ (e = TypeError ∨ e = DoesNotExist →
         get_active_terms_not_agreed_to settings db now u skip_optional w
           = (inr (VList []), w1))
    ∧ (e ≠ TypeError → e ≠ DoesNotExist →
         get_active_terms_not_agreed_to settings db now u skip_optional w
           = (inl e, w1)).
Proof.
  intros Hwf Hex Hmiss Hfail.
  destruct (failing_lookup_outcome settings db now u skip_optional w e
              Hwf Hex Hmiss Hfail) as (w1 & Hsame & -> & _).
  exists w1. split; [done|]. split.
  - by intros [-> | ->].
  - intros N1 N2. by destruct e.
Qed.

Lemma only_type_error_and_does_not_exist_are_absorbed_witness :
  ∃ w1,
    cache w1 !! not_agreed_key Fixture.user1 false
      = cache Fixture.fresh !! not_agreed_key Fixture.user1 false
    ∧ get_active_terms_not_agreed_to Fixture.test_settings
        (Fixture.failing TypeError []) Fixture.today Fixture.user1 false Fixture.fresh
      = (inr (VList []), w1).
Proof.
  destruct (only_type_error_and_does_not_exist_are_absorbed Fixture.test_settings
              (Fixture.failing TypeError []) Fixture.today Fixture.user1 false
              Fixture.fresh TypeError) as (w1 & Hsame & Habsorbed & _).
  - split; intros v e H; vm_compute in H; discriminate H.
  - reflexivity.
  - reflexivity.
  - reflexivity.
  - exists w1. split; [exact Hsame|]. apply Habsorbed. left. reflexivity.
Defined.

(** ** Membership of the computed result *)

Lemma elem_of_filter_bool {A} (f : A → bool) (l : list A) (x : A) :
  x ∈ List.filter f l ↔ x ∈ l ∧ f x = true.
Proof. rewrite !list_elem_of_In. apply filter_In. Qed.

Lemma seen_by_true db u t : seen_by db u t = true ↔ has_record db u t.
Proof.
  unfold seen_by, has_record, filter_user. rewrite existsb_exists.
  split; intros (ut & Hin & H); exists ut.
  - apply andb_true_iff in H as [H1 H2].
    apply bool_decide_eq_true in H1, H2. by rewrite list_elem_of_In.
  - destruct H as (Hu & Ht). split; [by apply list_elem_of_In|].
    by rewrite !bool_decide_eq_true_2.
Qed.

Lemma accepted_by_true db u t : accepted_by db u t = true ↔ has_accepted db u t.
Proof.
  unfold accepted_by, has_accepted, filter_user_accepted. rewrite existsb_exists.
  split; intros (ut & Hin & H); exists ut.
  - apply andb_true_iff in H as [H1 H2]. apply andb_true_iff in H1 as [H1 H3].
    apply bool_decide_eq_true in H1, H2, H3. by rewrite list_elem_of_In.
  - destruct H as (Hu & Ht & Hd). split; [by apply list_elem_of_In|].
    by rewrite !bool_decide_eq_true_2.
Qed.

Lemma elem_of_kept db u skip_optional rows t :
  t ∈ kept db u skip_optional rows ↔
    t ∈ rows ∧ ¬ has_accepted db u t
    ∧ (optional t = true → skip_optional = false ∧ ¬ has_record db u t).
Proof.
  unfold kept. rewrite !elem_of_filter_bool, !negb_true_iff.
  rewrite <-accepted_by_true, <-seen_by_true, !not_true_iff_false.
  destruct skip_optional, (optional t), (seen_by db u t); simpl;
    intuition congruence.
Qed.

Lemma arranged_Permutation db rows : arranged db rows ≡ₚ rows.
Proof.
  unfold arranged.
  destruct (merge_sort (by_optional_slug _) rows) as [|first rest] eqn:Hsort.
  - rewrite <-Hsort. apply merge_sort_Permutation.
  - destruct (optional first).
    + apply merge_sort_Permutation.
    + rewrite <-Hsort. apply merge_sort_Permutation.
Qed.

(** What the call returns when it computes: nothing, or the [kept] rows of
    the active list in the [arranged] order. *)
Lemma computed_sequence settings db now u skip_optional w v w' :
  computes_afresh now u skip_optional w →
  get_active_terms_not_agreed_to settings db now u skip_optional w = (inr v, w') →
  sequence v = []
  ∨ ∃ active_qs w1 rows,
      get_active_terms_list settings db now (logged DEBUG "Not Agreed Terms" w)
        = (inr (VQuerySet active_qs), w1)
      ∧ userterms_failure db = None
      ∧ selection active_qs db = inr rows
      ∧ sequence v = arranged db (kept db u skip_optional rows).
Proof.
  intros Hmiss Hcall.
  destruct (excluded_by_perm settings u) eqn:Hex.
  { unfold get_active_terms_not_agreed_to in Hcall. rewrite Hex in Hcall.
    injection Hcall as <- <-. by left. }
  destruct (get_active_terms_list settings db now (logged DEBUG "Not Agreed Terms" w))
    as [r w1] eqn:Hl.
  destruct (miss_cases _ _ _ _ _ _ _ _ Hex Hmiss Hl)
    as [(e & Hcall' & _)|(active_qs & rows & qs & -> & Hfail & Hsel & Hrc & Hcall')];
    rewrite Hcall' in Hcall.
  - left. destruct e; simpl in Hcall; by simplify_eq.
  - right. injection Hcall as <- <-. exists active_qs, w1, rows.
    repeat split; try done. simpl. unfold rows_of. by rewrite Hrc.
Qed.

(** The same, for [returned_rows]. *)
Lemma computed_rows settings db now u skip_optional w :
  computes_afresh now u skip_optional w →
  returned_rows (get_active_terms_not_agreed_to settings db now u skip_optional w) = []
  ∨ ∃ active_qs w1 rows,
      get_active_terms_list settings db now (logged DEBUG "Not Agreed Terms" w)
        = (inr (VQuerySet active_qs), w1)
      ∧ userterms_failure db = None
      ∧ selection active_qs db = inr rows
      ∧ returned_rows (get_active_terms_not_agreed_to settings db now u skip_optional w)
        = arranged db (kept db u skip_optional rows).
Proof.
  intros Hmiss. unfold returned_rows.
  destruct (get_active_terms_not_agreed_to _ _ _ _ _ _) as [[e|v] w'] eqn:Hcall;
    [by left|].
  apply (computed_sequence _ _ _ _ _ _ _ _ Hmiss Hcall).
Qed.




(** ** The active list, computed *)

Lemma cache_get_miss now key w :
  (cache_get now key w).1 = inr VNone → cache_get now key w = (inr VNone, w).
Proof.
  intros H. pose proof (cache_get_world now key w) as Hw.
  destruct (cache_get now key w) as [r w0]. simpl in *. by subst.
Qed.

Lemma get_active_terms_ids_computed settings db now w :
  (cache_get now "tandc.active_terms_ids" w).1 = inr VNone →
  get_active_terms_ids settings db now w =
    (inr (VList (compute_active_terms_ids db now)),
     stored "tandc.active_terms_ids" (VList (compute_active_terms_ids db now))
            (now + TERMS_CACHE_SECONDS settings) w).
Proof.
  intros Hmiss. unfold get_active_terms_ids, bind.
  by rewrite (cache_get_miss _ _ _ Hmiss).
Qed.

Lemma get_active_terms_list_computed settings db now w :
  computes_active_list now w →
  get_active_terms_list settings db now w =
    (inr (VQuerySet (listed (compute_active_terms_ids db now) (active_terms_rows db now))),
     stored "tandc.active_terms_list"
       (VQuerySet (listed (compute_active_terms_ids db now) (active_terms_rows db now)))
       (now + TERMS_CACHE_SECONDS settings)
       (stored "tandc.active_terms_ids" (VList (compute_active_terms_ids db now))
               (now + TERMS_CACHE_SECONDS settings) w)).
Proof.
  intros [Hlist Hids]. unfold get_active_terms_list. unfold bind at 1.
  rewrite (cache_get_miss _ _ _ Hlist). unfold bind at 1.
  by rewrite (get_active_terms_ids_computed _ _ _ _ Hids).
Qed.

Lemma cache_get_logged now key level message w :
  (cache_get now key (logged level message w)).1 = (cache_get now key w).1.
Proof. unfold cache_get. simpl. by repeat case_match. Qed.

Lemma computes_active_list_logged now level message w :
  computes_active_list now w → computes_active_list now (logged level message w).
Proof. unfold computes_active_list. by rewrite !cache_get_logged. Qed.

(** ** Optional policies *)




(** ** The order of the result *)

Lemma mandatory_first_nil : mandatory_first [].
Proof. exists [], []. repeat split; constructor. Qed.

Lemma sorted_one_group f b rows :
  StronglySorted (by_optional_slug f) rows →
  Forall (λ t, optional t = b) rows →
  StronglySorted by_slug rows.
Proof.
  induction 1 as [|x l Hl IH Hx]; intros Hall; [constructor|].
  apply Forall_cons in Hall as [Hb Hall]. constructor; [by apply IH|].
  rewrite Forall_forall in Hx, Hall. apply Forall_forall. intros y Hy.
  destruct (Hx y Hy) as [[_ Hne]|[_ Hle]]; [|done].
  rewrite Hb, (Hall y Hy) in Hne. done.
Qed.

Lemma one_group_mandatory_first b rows :
  StronglySorted by_slug rows →
  Forall (λ t, optional t = b) rows →
  mandatory_first rows.
Proof.
  intros Hs Hall. destruct b.
  - exists [], rows. repeat split; try done; constructor.
  - exists rows, []. rewrite app_nil_r. repeat split; try done; constructor.
Qed.

(** In an ordering that puts the group of [x] last, everything after [x]
    is in that group. *)
Lemma sorted_last_group f x rows :
  StronglySorted (by_optional_slug f) (x :: rows) →
  optional x = negb f →
  Forall (λ t, optional t = negb f) (x :: rows).
Proof.
  intros Hs Hx. apply StronglySorted_inv in Hs as [_ Hall].
  constructor; [done|]. eapply Forall_impl; [exact Hall|].
  intros y [[Hasc Hne]|[Heq _]]; [|congruence].
  unfold bool_asc in Hasc. rewrite Hx in Hasc, Hne.
  destruct f, (optional y); simpl in *; done.
Qed.

Lemma false_first_mandatory_first rows :
  StronglySorted (by_optional_slug false) rows → mandatory_first rows.
Proof.
  induction 1 as [|x l Hl IH Hx]; [apply mandatory_first_nil|].
  destruct (optional x) eqn:Hopt.
  - apply (one_group_mandatory_first true).
    + apply (sorted_one_group false true); [by constructor|].
      apply (sorted_last_group false); [by constructor|done].
    + apply (sorted_last_group false); [by constructor|done].
  - destruct IH as (m & o & -> & Hm & Ho & Hsm & Hso).
    exists (x :: m), o. repeat split; try done.
    + by constructor.
    + constructor; [done|]. apply Forall_app in Hx as [Hxm _].
      rewrite Forall_forall in Hxm, Hm. apply Forall_forall. intros y Hy.
      destruct (Hxm y Hy) as [[_ Hne]|[_ Hle]]; [|done].
      rewrite Hopt, (Hm y Hy) in Hne. done.
Qed.

Lemma arranged_mandatory_first db rows : mandatory_first (arranged db rows).
Proof.
  unfold arranged.
  pose proof (StronglySorted_merge_sort (by_optional_slug (true_sorts_first db)) rows)
    as Hsorted.
  pose proof (merge_sort_Permutation (by_optional_slug (true_sorts_first db)) rows)
    as Hperm.
  destruct (merge_sort (by_optional_slug (true_sorts_first db)) rows)
    as [|first rest]; [apply mandatory_first_nil|].
  destruct (true_sorts_first db) eqn:Hf, (optional first) eqn:Hopt.
  - apply false_first_mandatory_first.
    unfold by_desc_optional_slug. simpl. apply StronglySorted_merge_sort; apply _.
  - apply (one_group_mandatory_first false).
    + apply (sorted_one_group true false); [done|].
      by apply (sorted_last_group true).
    + by apply (sorted_last_group true).
  - pose proof (sorted_last_group false first rest Hsorted Hopt) as Hall.
    rewrite Hperm in Hall. simpl in Hall.
    unfold by_desc_optional_slug. simpl.
    apply (one_group_mandatory_first true).
    + apply (sorted_one_group true true); [apply StronglySorted_merge_sort; apply _|].
      by rewrite merge_sort_Permutation.
    + by rewrite merge_sort_Permutation.
  - by apply false_first_mandatory_first.
Qed.

(** [get_active_terms_list] writes under the two global keys only, also
    when it raises. *)
Lemma get_active_terms_ids_frame settings db now w k :
  k ≠ "tandc.active_terms_ids" →
  cache (get_active_terms_ids settings db now w).2 !! k = cache w !! k.
Proof.
  intros N. unfold get_active_terms_ids, bind, cache_get, cache_set.
  repeat case_match; simplify_eq/=; rewrite ?lookup_insert_ne; done.
Qed.

Lemma get_active_terms_list_frame settings db now w k :
  k ≠ "tandc.active_terms_ids" → k ≠ "tandc.active_terms_list" →
  cache (get_active_terms_list settings db now w).2 !! k = cache w !! k.
Proof.
  intros N1 N2. unfold get_active_terms_list. unfold bind at 1.
  destruct (cache_get_cases now "tandc.active_terms_list" w)
    as [->|(v & e & _ & _ & Hv & ->)]; [|by destruct v].
  pose proof (get_active_terms_ids_frame settings db now w k N1) as Hids.
  unfold bind at 1. destruct (get_active_terms_ids settings db now w) as [[e|ids] w1];
    [done|].
  unfold bind, lift, cache_set. simpl in Hids.
  repeat case_match; simplify_eq/=; rewrite ?lookup_insert_ne; done.
Qed.

(** C2: every sequence the call returns has the mandatory policies before
    the optional ones and ascending slugs within each group, whichever way
    the backend sorts booleans; this holds for a result taken from the
    cache because the cache only ever holds results in that order, which
    each call maintains. *)
Theorem result_is_mandatory_first (settings : Settings) (db : Database)
    (now : datetime) (u : User) (skip_optional : bool) (w : World) :
  cached_results_arranged w →
  mandatory_first
    (returned_rows (get_active_terms_not_agreed_to settings db now u skip_optional w))
  ∧ cached_results_arranged
      (get_active_terms_not_agreed_to settings db now u skip_optional w).2.
Proof.
  intros Hinv.
  destruct (excluded_by_perm settings u) eqn:Hex.
  { unfold get_active_terms_not_agreed_to. rewrite Hex. split; [|done].
    apply mandatory_first_nil. }
  destruct (cache_get_cases now (not_agreed_key u skip_optional) w)
    as [Hmiss|(v & e & Hk & _ & Hv & Hhit)].
  - assert ((cache_get now (not_agreed_key u skip_optional) w).1 = inr VNone) as Hmiss'
      by (by rewrite Hmiss).
    pose proof (λ k, get_active_terms_list_frame settings db now
                       (logged DEBUG "Not Agreed Terms" w) k) as Hframe.
    destruct (get_active_terms_list settings db now (logged DEBUG "Not Agreed Terms" w))
      as [r w1] eqn:Hl. simpl in Hframe.
    assert (cached_results_arranged w1) as Hinv1.
    { intros u' s' v' e' Hk'. apply (Hinv u' s' v' e').
      rewrite <-Hk'. symmetry.
      apply Hframe; [apply not_agreed_key_ne_ids|apply not_agreed_key_ne_list]. }
    destruct (miss_cases _ _ _ _ _ _ _ _ Hex Hmiss' Hl)
      as [(e & -> & _)|(active_qs & rows & qs & _ & _ & _ & Hrc & ->)].
    + unfold returned_rows. destruct e; simpl; split; try done;
        apply mandatory_first_nil.
    + assert (mandatory_first (sequence (VQuerySet qs))) as Hqs.
      { simpl. unfold rows_of. rewrite Hrc. apply arranged_mandatory_first. }
      split; [done|]. intros u' s' v' e'. simpl.
      destruct (decide (not_agreed_key u skip_optional = not_agreed_key u' s'))
        as [<-|Hne].
      * rewrite lookup_insert_eq. by intros [= <- <-].
      * rewrite lookup_insert_ne by done. apply Hinv1.
  - unfold get_active_terms_not_agreed_to. rewrite Hex. unfold bind. rewrite Hhit.
    destruct v; try done; split; try done; unfold returned_rows; simpl;
      try apply mandatory_first_nil.
    apply (Hinv _ _ _ _ Hk).
Qed.

Lemma result_is_mandatory_first_witness :
  mandatory_first
    (returned_rows (get_active_terms_not_agreed_to Fixture.test_settings
       (Fixture.database []) Fixture.today Fixture.user1 false Fixture.fresh))
  ∧ cached_results_arranged
      (get_active_terms_not_agreed_to Fixture.test_settings
         (Fixture.database []) Fixture.today Fixture.user1 false Fixture.fresh).2.
Proof.
  apply result_is_mandatory_first.
  intros u s v e H. vm_compute in H. discriminate H.
Defined.

(** ** The active version of a slug *)

Global Instance flip_by_date_active_total : Total (flip by_date_active).
Proof. intros a b. unfold flip. destruct (total by_date_active a b); auto. Qed.
Global Instance flip_by_date_active_trans : Transitive (flip by_date_active).
Proof. intros a b c. unfold flip. intros H1 H2. by etrans. Qed.

Lemma activated_true now t :
  activated now t = true ↔ ∃ d, date_active t = Some d ∧ d ≤ now.
Proof.
  unfold activated. destruct (date_active t) as [d|].
  - rewrite bool_decide_eq_true. split.
    + intros Hle. by exists d.
    + by intros (d' & [= <-] & Hle).
  - split; [done|]. by intros (d & Hd & _).
Qed.

Lemma latest_date_active_spec rows :
  match latest_date_active rows with
  | inr t => t ∈ rows ∧ ∀ t', t' ∈ rows → by_date_active t' t
  | inl e => e = DoesNotExist ∧ rows = []
  end.
Proof.
  unfold latest_date_active.
  pose proof (StronglySorted_merge_sort (flip by_date_active) rows) as Hsorted.
  pose proof (merge_sort_Permutation (flip by_date_active) rows) as Hperm.
  destruct (merge_sort (flip by_date_active) rows) as [|t rest].
  - split; [done|]. by apply Permutation_nil.
  - apply StronglySorted_inv in Hsorted as [_ Hall]. rewrite Forall_forall in Hall.
    split.
    + rewrite <-Hperm. left.
    + intros t'. rewrite <-Hperm. intros [->|Hin]%elem_of_cons.
      * unfold by_date_active. destruct (total date_le (date_active t) (date_active t)); done.
      * apply (Hall t' Hin).
Qed.




(** ** The active ids and the active list *)

Lemma dict_of_snoc rows t :
  dict_of (rows ++ [t]) = <[slug t := id t]> (dict_of rows).
Proof. unfold dict_of. by rewrite foldl_snoc. Qed.

(** The entry of a slug is the id of a row of that slug that comes last
    among the rows of the slug. *)
Lemma dict_of_lookup_Some (R : relation TermsAndConditions) `{!Reflexive R}
    rows s i :
  StronglySorted R rows →
  dict_of rows !! s = Some i →
  ∃ t, t ∈ rows ∧ slug t = s ∧ id t = i
       ∧ ∀ t', t' ∈ rows → slug t' = s → R t' t.
Proof.
  induction rows as [|x rows IH] using rev_ind; intros Hsorted Hlook.
  { unfold dict_of in Hlook. simpl in Hlook. by rewrite lookup_empty in Hlook. }
  rewrite dict_of_snoc in Hlook.
  apply StronglySorted_app in Hsorted as (Hcross & Hrows & _).
  destruct (decide (slug x = s)) as [Heq|Hne].
  - rewrite Heq, lookup_insert_eq in Hlook. injection Hlook as <-.
    exists x. split; [apply elem_of_app; right; left|].
    split; [done|]. split; [done|].
    intros t' [Hin| ->%list_elem_of_singleton]%elem_of_app _; [|done].
    apply Hcross; [done|left].
  - rewrite lookup_insert_ne in Hlook by done.
    destruct (IH Hrows Hlook) as (t & Hin & Hs & Hi & Hmax).
    exists t. split; [apply elem_of_app; by left|].
    split; [done|]. split; [done|].
    intros t' [Hin'| ->%list_elem_of_singleton]%elem_of_app Hs'; [by apply Hmax|done].
Qed.

Lemma dict_of_lookup_is_Some rows t :
  t ∈ rows → is_Some (dict_of rows !! slug t).
Proof.
  induction rows as [|x rows IH] using rev_ind; [by intros ?%not_elem_of_nil|].
  rewrite dict_of_snoc. intros [Hin| ->%list_elem_of_singleton]%elem_of_app.
  - destruct (decide (slug x = slug t)) as [->|Hne].
    + rewrite lookup_insert_eq. eauto.
    + rewrite lookup_insert_ne by done. by apply IH.
  - rewrite lookup_insert_eq. eauto.
Qed.

Global Instance by_date_active_refl : Reflexive by_date_active.
Proof. intros a. by destruct (total by_date_active a a). Qed.

Section ActiveList.
Context (db : Database) (now : datetime).
Hypothesis primary_key : NoDup (id <$> termsandconditions db).

Lemma same_id_same_row t1 t2 :
  t1 ∈ termsandconditions db → t2 ∈ termsandconditions db →
  id t1 = id t2 → t1 = t2.
Proof.
  intros H1 H2 Heq.
  apply list_elem_of_lookup in H1 as [i1 H1], H2 as [i2 H2].
  assert (i1 = i2) as ->; [|congruence].
  eapply NoDup_lookup; [exact primary_key| |].
  - rewrite list_lookup_fmap, H1. reflexivity.
  - rewrite list_lookup_fmap, H2. simpl. by rewrite Heq.
Qed.

Lemma NoDup_termsandconditions : NoDup (termsandconditions db).
Proof. by apply (NoDup_fmap_1 id). Qed.

Lemma elem_of_items s i :
  (s, i) ∈ merge_sort (λ a b : string * Z, String.le a.1 b.1)
             (map_to_list (active_terms_dict db now))
  ↔ active_terms_dict db now !! s = Some i.
Proof. by rewrite merge_sort_Permutation, elem_of_map_to_list. Qed.

(** An entry of the dictionary is the id of the latest activated row of
    its slug. *)
Lemma active_terms_dict_latest s i :
  active_terms_dict db now !! s = Some i →
  ∃ t, t ∈ termsandconditions db ∧ activated now t = true
       ∧ slug t = s ∧ id t = i
       ∧ ∀ t', t' ∈ termsandconditions db → activated now t' = true →
               slug t' = s → by_date_active t' t.
Proof.
  intros Hlook.
  assert (∀ t, t ∈ merge_sort by_date_active
                     (List.filter (activated now) (termsandconditions db))
               ↔ t ∈ termsandconditions db ∧ activated now t = true) as Hel.
  { intros t. by rewrite merge_sort_Permutation, elem_of_filter_bool. }
  destruct (dict_of_lookup_Some by_date_active _ s i
              (StronglySorted_merge_sort by_date_active _) Hlook)
    as (t & Hin & Hs & Hi & Hmax).
  apply Hel in Hin as [Hin Hact].
  exists t. repeat split; try done.
  intros t' Hin' Hact' Hs'. apply Hmax; [|done]. by apply Hel.
Qed.

Lemma elem_of_compute_active_terms_ids i :
  i ∈ compute_active_terms_ids db now ↔
    ∃ s, active_terms_dict db now !! s = Some i.
Proof.
  unfold compute_active_terms_ids. rewrite list_elem_of_fmap. split.
  - intros ([s i'] & -> & Hin). exists s. by apply elem_of_items.
  - intros [s Hs]. exists (s, i). split; [done|]. by apply elem_of_items.
Qed.

(** A row of the active list is the row its slug's entry points to. *)
Lemma active_terms_rows_entry t :
  t ∈ active_terms_rows db now ↔
    t ∈ termsandconditions db ∧ active_terms_dict db now !! slug t = Some (id t).
Proof.
  unfold active_terms_rows.
  rewrite merge_sort_Permutation, elem_of_filter_bool, bool_decide_eq_true,
    elem_of_compute_active_terms_ids.
  split; intros [Hin H]; (split; [done|]); [|eauto].
  destruct H as [s Hs].
  destruct (active_terms_dict_latest s (id t) Hs) as (t0 & Hin0 & _ & Hs0 & Hi0 & _).
  rewrite (same_id_same_row t0 t Hin0 Hin Hi0) in Hs0. by rewrite Hs0.
Qed.

Lemma NoDup_active_terms_rows : NoDup (active_terms_rows db now).
Proof.
  unfold active_terms_rows. rewrite merge_sort_Permutation.
  apply NoDup_ListNoDup, List.NoDup_filter, NoDup_ListNoDup, NoDup_termsandconditions.
Qed.

(** The active list, as (slug, id) pairs, is the sorted dictionary. *)
Lemma active_terms_rows_items :
  (λ t, (slug t, id t)) <$> active_terms_rows db now
  = merge_sort (λ a b : string * Z, String.le a.1 b.1)
      (map_to_list (active_terms_dict db now)).
Proof.
  assert (∀ s i, (s, i) ∈ (λ t, (slug t, id t)) <$> active_terms_rows db now
                 ↔ active_terms_dict db now !! s = Some i) as Hpairs.
  { intros s i. rewrite list_elem_of_fmap. split.
    - intros (t & [= -> ->] & Hin). by apply active_terms_rows_entry in Hin as [_ ?].
    - intros Hlook.
      destruct (active_terms_dict_latest s i Hlook) as (t & Hin & _ & <- & <- & _).
      exists t. split; [done|]. by apply active_terms_rows_entry. }
  apply (StronglySorted_unique_strong (λ a b : string * Z, String.le a.1 b.1)).
  - intros [s1 i1] [s2 i2] H1 H2 Hle1 Hle2. simpl in *.
    assert (s1 = s2) as -> by (by apply (anti_symm String.le)).
    apply Hpairs in H1. apply elem_of_items in H2. congruence.
  - apply (StronglySorted_fmap _ by_slug); [by intros x y|].
    apply StronglySorted_merge_sort; apply _.
  - apply StronglySorted_merge_sort; apply _.
  - apply NoDup_Permutation.
    + apply NoDup_fmap_2_strong; [|apply NoDup_active_terms_rows].
      intros x y Hx Hy [= _ Hid].
      apply active_terms_rows_entry in Hx as [Hx _], Hy as [Hy _].
      by apply same_id_same_row.
    + rewrite merge_sort_Permutation. apply NoDup_map_to_list.
    + intros [s i]. by rewrite Hpairs, elem_of_items.
Qed.

Lemma active_terms_rows_ids :
  id <$> active_terms_rows db now = compute_active_terms_ids db now.
Proof.
  unfold compute_active_terms_ids. rewrite <-active_terms_rows_items.
  rewrite <-list_fmap_compose. done.
Qed.

Lemma active_terms_rows_slugs :
  NoDup (slug <$> active_terms_rows db now).
Proof.
  assert (slug <$> active_terms_rows db now
          = (merge_sort (λ a b : string * Z, String.le a.1 b.1)
               (map_to_list (active_terms_dict db now))).*1) as ->.
  { rewrite <-active_terms_rows_items, <-list_fmap_compose. done. }
  rewrite merge_sort_Permutation. apply NoDup_fst_map_to_list.
Qed.
End ActiveList.




(** ** Repeated calls *)

Lemma cache_get_same_entry now key w w' :
  cache w !! key = cache w' !! key →
  (cache_get now key w).1 = (cache_get now key w').1.
Proof. unfold cache_get. intros ->. by repeat case_match. Qed.

Lemma hit_returns_cached settings db now u skip_optional w v expiry :
  excluded_by_perm settings u = false →
  cache w !! not_agreed_key u skip_optional = Some (v, expiry) →
  now < expiry → v ≠ VNone →
  get_active_terms_not_agreed_to settings db now u skip_optional w = (inr v, w).
Proof.
  intros Hex Hk Hlive Hv. unfold get_active_terms_not_agreed_to. rewrite Hex.
  unfold bind, cache_get. rewrite Hk, bool_decide_eq_true_2 by done.
  by destruct v.
Qed.




(** * Further properties of the resolvers *)

(** ** [get_active] and its cache entry *)

(** What [get_active] does when it computes: the latest activated row of the
    slug is returned and stored for the time-to-live; when there is none,
    [None] is returned after an error record, and nothing is stored. *)
Lemma get_active_computed settings db now s w :
  get_active_computes now s w →
  get_active settings db now s w =
    match latest_date_active
            (List.filter (λ t, activated now t && bool_decide (slug t = s))
                         (termsandconditions db)) with
    | inr t => (inr (VTerms t),
                stored (active_terms_key s) (VTerms t)
                       (now + TERMS_CACHE_SECONDS settings) w)
    | inl _ => (inr VNone,
                logged ERROR "Requested Terms and Conditions that Have Not Been Created." w)
    end.
Proof.
  intros Hmiss. unfold get_active. unfold bind at 1.
  fold (active_terms_key s). rewrite (cache_get_miss _ _ _ Hmiss).
  unfold try_except, bind, lift, cache_set, latest_date_active.
  by destruct (merge_sort _ _).
Qed.

Lemma elem_of_slug_rows db now s t :
  t ∈ List.filter (λ t, activated now t && bool_decide (slug t = s))
        (termsandconditions db) ↔ qualifies db now s t.
Proof.
  rewrite elem_of_filter_bool, andb_true_iff, bool_decide_eq_true, activated_true.
  unfold qualifies. tauto.
Qed.

(** The outcome of a computing [get_active], by cases. *)
Lemma get_active_computed_cases settings db now s w :
  get_active_computes now s w →
  (∃ t, get_active settings db now s w
          = (inr (VTerms t),
             stored (active_terms_key s) (VTerms t)
                    (now + TERMS_CACHE_SECONDS settings) w)
        ∧ qualifies db now s t
        ∧ ∀ t', qualifies db now s t' → date_le (date_active t') (date_active t))
  ∨ (get_active settings db now s w
       = (inr VNone,
          logged ERROR "Requested Terms and Conditions that Have Not Been Created." w)
     ∧ ∀ t', ¬ qualifies db now s t').
Proof.
  intros Hmiss. rewrite (get_active_computed _ _ _ _ _ Hmiss).
  pose proof (latest_date_active_spec
    (List.filter (λ t, activated now t && bool_decide (slug t = s))
       (termsandconditions db))) as Hlatest.
  destruct (latest_date_active _) as [e|t].
  - right. split; [done|]. destruct Hlatest as [_ Hnil]. intros t' Ht'.
    apply elem_of_slug_rows in Ht'. rewrite Hnil in Ht'. by apply not_elem_of_nil in Ht'.
  - left. exists t. split; [done|]. destruct Hlatest as [Hin Hmax].
    split; [by apply elem_of_slug_rows|].
    intros t' Ht'. apply Hmax. by apply elem_of_slug_rows.
Qed.

(** X1: when [get_active] computes and no row of the slug is activated, it
    returns [None], emits one error record, and leaves the cache as it was:
    the miss is not remembered. *)
Theorem get_active_not_found_is_logged_not_cached (settings : Settings)
    (db : Database) (now : datetime) (s : string) (w : World) :
  get_active_computes now s w →
  (∀ t, ¬ qualifies db now s t) →
  get_active settings db now s w
    = (inr VNone,
       {| cache := cache w;
          log := (ERROR, "Requested Terms and Conditions that Have Not Been Created.")
                 :: log w |}).
Proof.
  intros Hmiss Hnone.
  destruct (get_active_computed_cases settings db now s w Hmiss)
    as [(t & _ & Hq & _)|[-> _]]; [|done].
  by destruct (Hnone t).
Qed.

Lemma get_active_not_found_is_logged_not_cached_witness :
  get_active Fixture.test_settings (Fixture.database []) Fixture.today "privacy"
    Fixture.fresh
  = (inr VNone,
     {| cache := cache Fixture.fresh;
        log := (ERROR, "Requested Terms and Conditions that Have Not Been Created.")
               :: log Fixture.fresh |}).
Proof.
  apply get_active_not_found_is_logged_not_cached.
  - reflexivity.
  - intros t (Hin & Hslug & _). simpl in Hin.
    repeat (apply elem_of_cons in Hin as [->|Hin]; [discriminate Hslug|]).
    by apply not_elem_of_nil in Hin.
Defined.

Lemma get_active_hit settings db now s w v expiry :
  cache w !! active_terms_key s = Some (v, expiry) → now < expiry → v ≠ VNone →
  get_active settings db now s w = (inr v, w).
Proof.
  intros Hk Hlive Hv. unfold get_active, bind, cache_get.
  fold (active_terms_key s). rewrite Hk, bool_decide_eq_true_2 by done.
  by destruct v.
Qed.

(** X2: once [get_active] has computed the active version of a slug, every
    call for that slug before the time-to-live has passed returns the same
    version and changes nothing, whatever the table holds by then: a newly
    activated version is not seen. *)
Theorem get_active_is_stale_within_ttl (settings : Settings) (db db' : Database)
    (now later : datetime) (s : string) (w : World) (t : TermsAndConditions) :
  let first := get_active settings db now s w in
  get_active_computes now s w →
  first.1 = inr (VTerms t) →
  now ≤ later < now + TERMS_CACHE_SECONDS settings →
  get_active settings db' later s first.2 = (inr (VTerms t), first.2).
Proof.
  intros first Hmiss Hfound Hwindow. subst first.
  destruct (get_active_computed_cases settings db now s w Hmiss)
    as [(t0 & Hcall & _)|[Hcall _]]; rewrite Hcall in Hfound |- *; [|done].
  injection Hfound as ->. simpl.
  apply (get_active_hit _ _ _ _ _ _ (now + TERMS_CACHE_SECONDS settings));
    [apply lookup_insert_eq|lia|done].
Qed.

Lemma get_active_is_stale_within_ttl_witness :
  let upgraded :=
    with_termsandconditions
      (termsandconditions (Fixture.database [])
       ++ [Fixture.make_terms 7 "site-terms" "Site Terms" 250 "Terms and Conditions2"
             20120205 false])
      (Fixture.database []) in
  let first :=
    get_active Fixture.test_settings (Fixture.database []) Fixture.today "site-terms"
      Fixture.fresh in
  get_active Fixture.test_settings upgraded (Fixture.today + 29) "site-terms" first.2
  = (inr (VTerms Fixture.terms2), first.2).
Proof.
  apply (get_active_is_stale_within_ttl Fixture.test_settings (Fixture.database []));
    [reflexivity|reflexivity|split; [discriminate|reflexivity]].
Defined.

(** X3: the time-to-live bounds the staleness: a call made once it has
    passed computes again, and returns the latest activated row of the slug
    in the table as it is then ([None] when there is none). *)
Theorem get_active_recomputes_after_ttl (settings : Settings) (db db' : Database)
    (now later : datetime) (s : string) (w : World) :
  let first := get_active settings db now s w in
  get_active_computes now s w →
  now ≤ later →
  now + TERMS_CACHE_SECONDS settings ≤ later →
  match (get_active settings db' later s first.2).1 with
  | inr (VTerms t) =>
      qualifies db' later s t
      ∧ ∀ t', qualifies db' later s t' → date_le (date_active t') (date_active t)
  | inr VNone => ∀ t', ¬ qualifies db' later s t'
  | _ => False
  end.
Proof.
  intros first Hmiss Hle Hexpired. subst first.
  assert (get_active_computes later s (get_active settings db now s w).2) as Hmiss'.
  { unfold get_active_computes.
    destruct (get_active_computed_cases settings db now s w Hmiss)
      as [(t0 & -> & _)|[-> _]]; simpl.
    - unfold cache_get. simpl. rewrite lookup_insert_eq.
      by rewrite bool_decide_eq_false_2 by lia.
    - rewrite cache_get_logged.
      by rewrite (cache_get_later now later _ w Hle (cache_get_miss _ _ _ Hmiss)). }
  destruct (get_active_computed_cases settings db' later s _ Hmiss')
    as [(t & -> & Hq & Hmax)|[-> Hnone]]; done.
Qed.

Lemma get_active_recomputes_after_ttl_witness :
  let upgraded :=
    with_termsandconditions
      (termsandconditions (Fixture.database [])
       ++ [Fixture.make_terms 7 "site-terms" "Site Terms" 250 "Terms and Conditions2"
             20120205 false])
      (Fixture.database []) in
  let first :=
    get_active Fixture.test_settings (Fixture.database []) Fixture.today "site-terms"
      Fixture.fresh in
  match (get_active Fixture.test_settings upgraded (Fixture.today + 30) "site-terms"
           first.2).1 with
  | inr (VTerms t) =>
      qualifies upgraded (Fixture.today + 30) "site-terms" t
      ∧ ∀ t', qualifies upgraded (Fixture.today + 30) "site-terms" t' →
              date_le (date_active t') (date_active t)
  | inr VNone => ∀ t', ¬ qualifies upgraded (Fixture.today + 30) "site-terms" t'
  | _ => False
  end.
Proof.
  apply (get_active_recomputes_after_ttl Fixture.test_settings (Fixture.database []));
    [reflexivity|discriminate|discriminate].
Defined.

(** X4: for one table, the active version of a slug never goes back in
    time: if a computing call finds a version, a later computing call finds
    one too, activated no earlier. *)
Theorem get_active_is_monotone_in_time (settings : Settings) (db : Database)
    (now later : datetime) (s : string) (w w' : World) (t : TermsAndConditions) :
  get_active_computes now s w →
  get_active_computes later s w' →
  now ≤ later →
  (get_active settings db now s w).1 = inr (VTerms t) →
  ∃ t', (get_active settings db later s w').1 = inr (VTerms t')
        ∧ date_le (date_active t) (date_active t').
Proof.
  intros Hmiss Hmiss' Hle Hfound.
  destruct (get_active_computed_cases settings db now s w Hmiss)
    as [(t0 & Hcall & Hq & _)|[Hcall _]]; rewrite Hcall in Hfound; [|done].
  injection Hfound as ->.
  assert (qualifies db later s t) as Hq'.
  { destruct Hq as (Hin & Hs & d & Hd & Hnow). split; [done|]. split; [done|].
    exists d. split; [done|lia]. }
  destruct (get_active_computed_cases settings db later s w' Hmiss')
    as [(t' & -> & _ & Hmax)|[_ Hnone]].
  - exists t'. split; [done|]. by apply Hmax.
  - by destruct (Hnone t).
Qed.

Lemma get_active_is_monotone_in_time_witness :
  ∃ t', (get_active Fixture.test_settings (Fixture.database []) 21000101
           "contrib-terms" Fixture.fresh).1 = inr (VTerms t')
        ∧ date_le (date_active Fixture.terms3) (date_active t').
Proof.
  apply (get_active_is_monotone_in_time Fixture.test_settings (Fixture.database [])
           Fixture.today 21000101 "contrib-terms" Fixture.fresh Fixture.fresh);
    [reflexivity|reflexivity|discriminate|reflexivity].
Defined.

(** ** What is outstanding, exactly *)

(** The rows a call returns when everything is computed: the rows of the
    table with an active id, less the two exclusions, in the arranged
    order. *)
Lemma not_agreed_computed_rows settings db now u skip_optional w :
  excluded_by_perm settings u = false →
  computes_afresh now u skip_optional w →
  computes_active_list now w →
  userterms_failure db = None →
  returned_rows (get_active_terms_not_agreed_to settings db now u skip_optional w)
  = arranged db
      (kept db u skip_optional
         (List.filter (λ t, bool_decide (id t ∈ compute_active_terms_ids db now))
                      (termsandconditions db))).
Proof.
  intros Hex Hmiss Hcold Hfail.
  pose proof (get_active_terms_list_computed settings db now _
                (computes_active_list_logged now DEBUG "Not Agreed Terms" w Hcold)) as Hl.
  destruct (miss_cases _ _ _ _ _ _ _ _ Hex Hmiss Hl)
    as [(e & _ & [He|[(lst & He & Hq)|(qs & He & [Hf|[_ Hs]])]])
       |(active_qs & rows & qs & Hr & _ & Hsel & Hrc & Hcall)].
  - discriminate He.
  - injection He as <-. discriminate Hq.
  - congruence.
  - injection He as <-. discriminate Hs.
  - injection Hr as <-. simpl in Hsel. injection Hsel as <-.
    unfold returned_rows. rewrite Hcall. simpl. unfold rows_of. by rewrite Hrc.
Qed.

(** C1, amended: with an exemption permission configured, an active user
    who is not a superuser and holds the permission by an explicit grant
    gets the empty list at once, and the cache and the log are left as they
    were. A superuser is never exempted, with or without the grant: the
    call behaves as if no exemption permission were configured, and when it
    computes it hands the superuser exactly the outstanding policies (every
    row of the active list not accepted by them and, if optional, neither
    skipped nor seen). *)
Theorem exemption_needs_grant_and_no_superuser (settings : Settings) (db : Database)
    (now : datetime) (u : User) (skip_optional : bool) (perm : string) (w : World) :
  TERMS_EXCLUDE_USERS_WITH_PERM settings = Some perm →
  (is_superuser u = false → is_active u = true → perm ∈ user_permissions u →
     get_active_terms_not_agreed_to settings db now u skip_optional w
       = (inr (VList []), w))
  ∧ (is_superuser u = true →
     get_active_terms_not_agreed_to settings db now u skip_optional w
       = get_active_terms_not_agreed_to (without_exemption settings) db now u
           skip_optional w)
  ∧ (is_superuser u = true →
     computes_afresh now u skip_optional w →
     computes_active_list now w →
     userterms_failure db = None →
     ∀ t, t ∈ returned_rows
                (get_active_terms_not_agreed_to settings db now u skip_optional w)
          ↔ t ∈ active_terms_rows db now
            ∧ ¬ has_accepted db u t
            ∧ (optional t = true → skip_optional = false ∧ ¬ has_record db u t)).
Proof.
  intros Hperm. split; [|split].
  - intros Hsu Hact Hin. unfold get_active_terms_not_agreed_to.
    by rewrite (excluded_by_perm_granted _ _ _ Hperm Hsu Hact Hin).
  - intros Hsu. unfold get_active_terms_not_agreed_to.
    by rewrite !excluded_by_perm_superuser.
  - intros Hsu Hmiss Hcold Hfail t.
    rewrite (not_agreed_computed_rows _ _ _ _ _ _
               (excluded_by_perm_superuser settings u Hsu) Hmiss Hcold Hfail).
    rewrite arranged_Permutation, elem_of_kept. unfold active_terms_rows.
    by rewrite merge_sort_Permutation.
Qed.

Lemma exemption_needs_grant_and_no_superuser_witness :
  (get_active_terms_not_agreed_to Fixture.test_settings (Fixture.database [])
     Fixture.today Fixture.user3 false Fixture.fresh = (inr (VList []), Fixture.fresh))
  ∧ (get_active_terms_not_agreed_to Fixture.test_settings (Fixture.database [])
       Fixture.today Fixture.su false Fixture.fresh
     = get_active_terms_not_agreed_to (without_exemption Fixture.test_settings)
         (Fixture.database []) Fixture.today Fixture.su false Fixture.fresh)
  ∧ Fixture.terms3 ∈ returned_rows
      (get_active_terms_not_agreed_to Fixture.test_settings (Fixture.database [])
         Fixture.today Fixture.su_granted true Fixture.fresh).
Proof.
  split; [|split].
  - refine (proj1 (exemption_needs_grant_and_no_superuser Fixture.test_settings
                     (Fixture.database []) Fixture.today Fixture.user3 false
                     Fixture.skip_perm Fixture.fresh _) _ _ _); [reflexivity..|].
    apply list_elem_of_In. simpl. left. reflexivity.
  - refine (proj1 (proj2 (exemption_needs_grant_and_no_superuser Fixture.test_settings
                     (Fixture.database []) Fixture.today Fixture.su false
                     Fixture.skip_perm Fixture.fresh _)) _); reflexivity.
  - refine (proj2 (proj2 (proj2 (exemption_needs_grant_and_no_superuser
                     Fixture.test_settings (Fixture.database []) Fixture.today
                     Fixture.su_granted true Fixture.skip_perm Fixture.fresh _))
                     _ _ _ _ Fixture.terms3) _);
      [reflexivity|reflexivity|reflexivity|split; reflexivity|reflexivity|].
    split; [|split].
    + assert (active_terms_rows (Fixture.database []) Fixture.today
              = [Fixture.terms3; Fixture.terms5; Fixture.terms2]) as ->
        by (vm_compute; reflexivity).
      left.
    + intros (ut & Hin & _). simpl in Hin. inversion Hin.
    + discriminate.
Defined.

(** X5: when everything is computed, a policy is returned exactly when it
    is a row of the active list that the user has not accepted and, if it
    is optional, that the caller did not ask to skip and the user has no
    record of at all. A mandatory policy stays outstanding until it is
    accepted, whatever the flag. *)
Theorem outstanding_exactly (settings : Settings) (db : Database) (now : datetime)
    (u : User) (skip_optional : bool) (w : World) (t : TermsAndConditions) :
  excluded_by_perm settings u = false →
  computes_afresh now u skip_optional w →
  computes_active_list now w →
  userterms_failure db = None →
  t ∈ returned_rows (get_active_terms_not_agreed_to settings db now u skip_optional w)
  ↔ t ∈ active_terms_rows db now
    ∧ ¬ has_accepted db u t
    ∧ (optional t = true → skip_optional = false ∧ ¬ has_record db u t).
Proof.
  intros Hex Hmiss Hcold Hfail.
  rewrite (not_agreed_computed_rows _ _ _ _ _ _ Hex Hmiss Hcold Hfail).
  rewrite arranged_Permutation, elem_of_kept. unfold active_terms_rows.
  by rewrite merge_sort_Permutation.
Qed.

Lemma outstanding_exactly_witness :
  Fixture.terms2 ∈ returned_rows
    (get_active_terms_not_agreed_to Fixture.test_settings
       (Fixture.database [UserTermsAndConditions_init Fixture.today 2 2 None (Some None)])
       Fixture.today Fixture.user1 true Fixture.fresh).
Proof.
  apply (outstanding_exactly Fixture.test_settings
           (Fixture.database [UserTermsAndConditions_init Fixture.today 2 2 None (Some None)])
           Fixture.today Fixture.user1 true Fixture.fresh Fixture.terms2);
    [reflexivity|reflexivity|split; reflexivity|reflexivity|].
  split; [|split].
  - assert (active_terms_rows
              (Fixture.database
                 [UserTermsAndConditions_init Fixture.today 2 2 None (Some None)])
              Fixture.today
            = [Fixture.terms3; Fixture.terms5; Fixture.terms2]) as ->
      by (vm_compute; reflexivity).
    right. right. left.
  - intros (ut & Hin & _ & _ & Hdate). simpl in Hin.
    apply elem_of_cons in Hin as [->|Hin]; [|by apply not_elem_of_nil in Hin].
    simpl in Hdate. by destruct Hdate.
  - discriminate.
Defined.

Lemma NoDup_fmap_same {A B} (f : A → B) (l : list A) (x y : A) :
  NoDup (f <$> l) → x ∈ l → y ∈ l → f x = f y → x = y.
Proof.
  intros Hnd [i Hi]%list_elem_of_lookup [j Hj]%list_elem_of_lookup Heq.
  assert (i = j) as ->; [|congruence].
  eapply NoDup_lookup; [exact Hnd| |].
  - rewrite list_lookup_fmap, Hi. reflexivity.
  - rewrite list_lookup_fmap, Hj. simpl. by rewrite Heq.
Qed.

Lemma NoDup_filter_bool {A} (f : A → bool) (l : list A) :
  NoDup l → NoDup (List.filter f l).
Proof. intros H. by apply NoDup_ListNoDup, List.NoDup_filter, NoDup_ListNoDup. Qed.

Lemma filter_bool_none {A} (f : A → bool) (l : list A) :
  Forall (λ x, f x = false) l → List.filter f l = [].
Proof. induction 1 as [|x l Hx _ IH]; simpl; [done|]. by rewrite Hx. Qed.

Lemma filter_bool_all {A} (f : A → bool) (l : list A) :
  Forall (λ x, f x = true) l → List.filter f l = l.
Proof. induction 1 as [|x l Hx _ IH]; simpl; [done|]. by rewrite Hx, IH. Qed.

Lemma NoDup_kept db u skip_optional rows :
  NoDup rows → NoDup (kept db u skip_optional rows).
Proof. intros H. unfold kept. by do 2 apply NoDup_filter_bool. Qed.

(** The parts of an arranged list. *)
Lemma arranged_parts db rows :
  ∃ mandatory optionals,
    arranged db rows = mandatory ++ optionals
    ∧ Forall (λ t, optional t = false) mandatory
    ∧ Forall (λ t, optional t = true) optionals
    ∧ StronglySorted by_slug mandatory
    ∧ List.filter optional (arranged db rows) = optionals.
Proof.
  destruct (arranged_mandatory_first db rows) as (m & o & Heq & Hm & Ho & Hsm & _).
  exists m, o. repeat split; try done.
  rewrite Heq, List.filter_app, (filter_bool_none _ m), (filter_bool_all _ o); done.
Qed.

(** X6: when everything is computed, what a caller gets with
    [skip_optional] is the beginning of what it gets without: the
    mandatory policies, in the same order; the rest of the longer result
    are its optional policies. *)
Theorem skipping_optional_gives_the_mandatory_prefix (settings : Settings)
    (db : Database) (now : datetime) (u : User) (w : World) :
  let skipping := returned_rows (get_active_terms_not_agreed_to settings db now u true w) in
  let everything := returned_rows (get_active_terms_not_agreed_to settings db now u false w) in
  NoDup (id <$> termsandconditions db) →
  excluded_by_perm settings u = false →
  computes_afresh now u true w →
  computes_afresh now u false w →
  computes_active_list now w →
  userterms_failure db = None →
  everything = skipping ++ List.filter optional everything
  ∧ Forall (λ t, optional t = false) skipping.
Proof.
  intros skipping everything Hpk Hex Hmiss_t Hmiss_f Hcold Hfail.
  subst skipping everything.
  rewrite (not_agreed_computed_rows _ _ _ _ _ _ Hex Hmiss_t Hcold Hfail).
  rewrite (not_agreed_computed_rows _ _ _ _ _ _ Hex Hmiss_f Hcold Hfail).
  set (base := List.filter _ (termsandconditions db)).
  assert (∀ t, t ∈ base → t ∈ active_terms_rows db now) as Hbase.
  { intros t Ht. unfold active_terms_rows. by rewrite merge_sort_Permutation. }
  assert (NoDup base) as Hnd.
  { apply NoDup_filter_bool. by apply NoDup_termsandconditions. }
  assert (∀ t, t ∈ arranged db (kept db u true base)
               ↔ t ∈ arranged db (kept db u false base) ∧ optional t = false) as Hel.
  { intros t. rewrite !arranged_Permutation, !elem_of_kept.
    destruct (optional t); intuition congruence. }
  assert (Forall (λ t, optional t = false) (arranged db (kept db u true base))) as Hall.
  { apply Forall_forall. intros t Ht. by apply Hel in Ht as [_ ?]. }
  split; [|done].
  destruct (arranged_parts db (kept db u false base))
    as (m & o & Heq & Hm & Ho & Hsm & ->).
  destruct (arranged_parts db (kept db u true base))
    as (m' & o' & Heq' & _ & Ho' & Hsm' & _).
  assert (o' = []) as ->.
  { destruct o' as [|x o']; [done|]. exfalso.
    apply Forall_cons in Ho' as [Hx _]. rewrite Forall_forall in Hall.
    rewrite (Hall x) in Hx; [done|]. rewrite Heq'. apply elem_of_app. right. left. }
  rewrite app_nil_r in Heq'. rewrite Heq' in Hel |- *. rewrite Heq in Hel |- *.
  f_equal.
  assert (NoDup (m ++ o)) as Hndf.
  { rewrite <-Heq, arranged_Permutation. by apply NoDup_kept. }
  assert (NoDup m') as Hndt.
  { rewrite <-Heq', arranged_Permutation. by apply NoDup_kept. }
  assert (∀ t, t ∈ m ++ o → t ∈ base) as Hin_base.
  { intros t. rewrite <-Heq, arranged_Permutation. by intros [? _]%elem_of_kept. }
  assert (∀ t, t ∈ m ↔ t ∈ m') as Hsame.
  { intros t. rewrite Hel, elem_of_app. rewrite Forall_forall in Hm, Ho. split.
    - intros Ht. split; [by left|by apply Hm].
    - intros [[Ht|Ht] Hopt]; [done|]. rewrite (Ho t Ht) in Hopt. done. }
  apply (StronglySorted_unique_strong by_slug); [|done|done|].
  - intros x y Hx Hy Hle1 Hle2.
    apply (NoDup_fmap_same slug (active_terms_rows db now)).
    + by apply active_terms_rows_slugs.
    + apply Hbase, Hin_base, elem_of_app. by left.
    + apply Hbase, Hin_base, elem_of_app. left. by apply Hsame.
    + by apply (anti_symm String.le).
  - apply NoDup_Permutation; [by apply NoDup_app in Hndf as [? _]|done|done].
Qed.

Lemma skipping_optional_gives_the_mandatory_prefix_witness :
  let skipping :=
    returned_rows (get_active_terms_not_agreed_to Fixture.test_settings
      (Fixture.database []) Fixture.today Fixture.user1 true Fixture.fresh) in
  let everything :=
    returned_rows (get_active_terms_not_agreed_to Fixture.test_settings
      (Fixture.database []) Fixture.today Fixture.user1 false Fixture.fresh) in
  everything = skipping ++ List.filter optional everything
  ∧ Forall (λ t, optional t = false) skipping.
Proof.
  apply (skipping_optional_gives_the_mandatory_prefix Fixture.test_settings
           (Fixture.database []) Fixture.today Fixture.user1 Fixture.fresh);
    [|reflexivity|reflexivity|reflexivity|split; reflexivity|reflexivity].
  refine (bool_decide_unpack (NoDup [1; 2; 3; 4; 5; 6]) _). vm_compute. exact I.
Defined.

(** ** Drafts and scheduled versions *)

Lemma filter_bool_insert {A} (f : A → bool) (l1 l2 : list A) (x : A) :
  f x = false → List.filter f (l1 ++ x :: l2) = List.filter f (l1 ++ l2).
Proof. intros Hx. rewrite !List.filter_app. simpl. by rewrite Hx. Qed.

Lemma compute_active_terms_ids_insert db now l1 l2 t :
  termsandconditions db = l1 ++ l2 →
  activated now t = false →
  compute_active_terms_ids (with_termsandconditions (l1 ++ t :: l2) db) now
  = compute_active_terms_ids db now.
Proof.
  intros Hdb Ht. unfold compute_active_terms_ids, active_terms_dict. simpl.
  by rewrite Hdb, (filter_bool_insert _ _ _ _ Ht).
Qed.

(** X7: a row that is not activated (a draft, with no [date_active], or a
    version scheduled for later) changes nothing for [get_active_terms_ids]
    and [get_active], wherever it sits in the table: the calls return the
    same values and leave the same cache and log as without it. *)
Theorem unactivated_row_is_invisible (settings : Settings) (db : Database)
    (now : datetime) (w : World) (l1 l2 : list TermsAndConditions)
    (t : TermsAndConditions) :
  termsandconditions db = l1 ++ l2 →
  activated now t = false →
  get_active_terms_ids settings (with_termsandconditions (l1 ++ t :: l2) db) now w
    = get_active_terms_ids settings db now w
  ∧ ∀ s, get_active settings (with_termsandconditions (l1 ++ t :: l2) db) now s w
         = get_active settings db now s w.
Proof.
  intros Hdb Ht. split.
  - unfold get_active_terms_ids.
    by rewrite (compute_active_terms_ids_insert db now l1 l2 t Hdb Ht).
  - intros s. unfold get_active. simpl termsandconditions. rewrite Hdb.
    rewrite (filter_bool_insert _ l1 l2 t); [done|]. by rewrite Ht.
Qed.

Lemma unactivated_row_is_invisible_witness :
  let draft := {|
    id := 9; slug := "site-terms"; name := "Site Terms"; version_number := 300;
    text := None; info := None; date_active := None; date_created := 20200101;
    optional := false |} in
  let db' :=
    with_termsandconditions
      ([Fixture.terms1] ++ draft
         :: [Fixture.terms2; Fixture.terms3; Fixture.terms4; Fixture.terms5;
             Fixture.terms6])
      (Fixture.database []) in
  get_active_terms_ids Fixture.test_settings db' Fixture.today Fixture.fresh
    = get_active_terms_ids Fixture.test_settings (Fixture.database []) Fixture.today
        Fixture.fresh
  ∧ ∀ s, get_active Fixture.test_settings db' Fixture.today s Fixture.fresh
         = get_active Fixture.test_settings (Fixture.database []) Fixture.today s
             Fixture.fresh.
Proof.
  apply (unactivated_row_is_invisible Fixture.test_settings (Fixture.database [])
           Fixture.today Fixture.fresh [Fixture.terms1]); reflexivity.
Defined.

(** X8: when everything is computed, every policy the caller is handed is
    an activated row of the table, not in the future, and the latest
    activated row of its slug: no draft, no scheduled version and no
    superseded version is ever demanded of a user. *)
Theorem outstanding_rows_are_active_versions (settings : Settings) (db : Database)
    (now : datetime) (u : User) (skip_optional : bool) (w : World)
    (t : TermsAndConditions) :
  NoDup (id <$> termsandconditions db) →
  computes_afresh now u skip_optional w →
  computes_active_list now w →
  t ∈ returned_rows (get_active_terms_not_agreed_to settings db now u skip_optional w) →
  qualifies db now (slug t) t
  ∧ ∀ t', qualifies db now (slug t) t' → date_le (date_active t') (date_active t).
Proof.
  intros Hpk Hmiss Hcold Hin.
  assert (t ∈ active_terms_rows db now) as Hactive.
  { destruct (computed_rows settings db now u skip_optional w Hmiss)
      as [Hnil|(active_qs & w1 & rows & Hl & _ & Hsel & Hseq)].
    - rewrite Hnil in Hin. by apply not_elem_of_nil in Hin.
    - rewrite (get_active_terms_list_computed settings db now _
                 (computes_active_list_logged now DEBUG "Not Agreed Terms" w Hcold))
        in Hl.
      injection Hl as <- _. simpl in Hsel. injection Hsel as <-.
      rewrite Hseq, arranged_Permutation in Hin.
      apply elem_of_kept in Hin as [Hin _]. unfold active_terms_rows.
      by rewrite merge_sort_Permutation. }
  apply active_terms_rows_entry in Hactive as [Hin' Hentry]; [|done].
  destruct (active_terms_dict_latest db now _ _ Hentry)
    as (t0 & Hin0 & Hact0 & Hs0 & Hi0 & Hmax).
  rewrite (same_id_same_row db Hpk t0 t Hin0 Hin' Hi0) in Hact0, Hmax.
  split.
  - split; [done|]. split; [done|]. by apply activated_true.
  - intros t' (Ht' & Hs' & Hact'%activated_true). by apply Hmax.
Qed.

Lemma outstanding_rows_are_active_versions_witness :
  qualifies (Fixture.database []) Fixture.today (slug Fixture.terms2) Fixture.terms2
  ∧ ∀ t', qualifies (Fixture.database []) Fixture.today (slug Fixture.terms2) t' →
          date_le (date_active t') (date_active Fixture.terms2).
Proof.
  apply (outstanding_rows_are_active_versions Fixture.test_settings
           (Fixture.database []) Fixture.today Fixture.user1 false Fixture.fresh
           Fixture.terms2).
  - refine (bool_decide_unpack (NoDup [1; 2; 3; 4; 5; 6]) _). vm_compute. exact I.
  - reflexivity.
  - split; reflexivity.
  - assert (returned_rows
              (get_active_terms_not_agreed_to Fixture.test_settings
                 (Fixture.database []) Fixture.today Fixture.user1 false Fixture.fresh)
            = [Fixture.terms3; Fixture.terms2; Fixture.terms5]) as ->
      by (vm_compute; reflexivity).
    right. left.
Defined.

(** ** The ids, and the two global entries *)

(** X9: when [get_active_terms_ids] computes, the list it returns has no
    duplicates ([id] being the primary key), and it is empty exactly when
    no row of the table is activated. *)
Theorem active_ids_are_distinct_and_empty_iff_none_active (settings : Settings)
    (db : Database) (now : datetime) (w : World) :
  (cache_get now "tandc.active_terms_ids" w).1 = inr VNone →
  NoDup (id <$> termsandconditions db) →
  ∃ ids, (get_active_terms_ids settings db now w).1 = inr (VList ids)
    ∧ NoDup ids
    ∧ (ids = [] ↔ ∀ t, t ∈ termsandconditions db → activated now t = false).
Proof.
  intros Hmiss Hpk. rewrite (get_active_terms_ids_computed _ _ _ _ Hmiss).
  exists (compute_active_terms_ids db now). split; [done|]. split; [|split].
  - rewrite <-(active_terms_rows_ids db now Hpk).
    apply NoDup_fmap_2_strong; [|by apply NoDup_active_terms_rows].
    intros x y [Hx _]%active_terms_rows_entry [Hy _]%active_terms_rows_entry Hid;
      try done.
    by apply (same_id_same_row db Hpk).
  - intros Hnil t Hin. destruct (activated now t) eqn:Hact; [exfalso|done].
    assert (t ∈ merge_sort by_date_active
                  (List.filter (activated now) (termsandconditions db))) as Hin'.
    { by rewrite merge_sort_Permutation, elem_of_filter_bool. }
    destruct (dict_of_lookup_is_Some _ _ Hin') as [i Hi].
    assert (i ∈ compute_active_terms_ids db now) as Hi'.
    { apply elem_of_compute_active_terms_ids. by exists (slug t). }
    rewrite Hnil in Hi'. by apply not_elem_of_nil in Hi'.
  - intros Hnone. destruct (compute_active_terms_ids db now) as [|i ids] eqn:Hids;
      [done|exfalso].
    assert (i ∈ compute_active_terms_ids db now) as Hi by (rewrite Hids; left).
    apply elem_of_compute_active_terms_ids in Hi as [s Hs].
    destruct (active_terms_dict_latest db now s i Hs) as (t & Hin & Hact & _).
    by rewrite (Hnone t Hin) in Hact.
Qed.

Lemma active_ids_are_distinct_and_empty_iff_none_active_witness :
  ∃ ids, (get_active_terms_ids Fixture.test_settings (Fixture.database []) 20111231
            Fixture.fresh).1 = inr (VList ids)
    ∧ NoDup ids
    ∧ (ids = [] ↔ ∀ t, t ∈ termsandconditions (Fixture.database []) →
                       activated 20111231 t = false).
Proof.
  apply (active_ids_are_distinct_and_empty_iff_none_active Fixture.test_settings
           (Fixture.database []) 20111231 Fixture.fresh).
  - reflexivity.
  - refine (bool_decide_unpack (NoDup [1; 2; 3; 4; 5; 6]) _). vm_compute. exact I.
Defined.

(** X10: when neither global entry is live, [get_active_terms_list]
    computes the ids too and fills both entries: until the time-to-live has
    passed, [get_active_terms_ids] and [get_active_terms_list] answer from
    the cache with the ids and the list of that moment, whatever the table
    holds by then, and change nothing. *)
Theorem active_list_call_fills_both_entries (settings : Settings) (db db' : Database)
    (now later : datetime) (w : World) :
  let first := get_active_terms_list settings db now w in
  computes_active_list now w →
  now ≤ later < now + TERMS_CACHE_SECONDS settings →
  get_active_terms_ids settings db' later first.2
    = (inr (VList (compute_active_terms_ids db now)), first.2)
  ∧ get_active_terms_list settings db' later first.2 = (first.1, first.2).
Proof.
  intros first Hcold Hwindow. subst first.
  rewrite (get_active_terms_list_computed settings db now w Hcold). simpl. split.
  - unfold get_active_terms_ids, bind, cache_get. simpl.
    rewrite lookup_insert_ne by done. rewrite lookup_insert_eq.
    by rewrite bool_decide_eq_true_2 by lia.
  - unfold get_active_terms_list, bind, cache_get. simpl.
    rewrite lookup_insert_eq. by rewrite bool_decide_eq_true_2 by lia.
Qed.

Lemma active_list_call_fills_both_entries_witness :
  let first :=
    get_active_terms_list Fixture.test_settings (Fixture.database []) Fixture.today
      Fixture.fresh in
  let emptied := with_termsandconditions [] (Fixture.database []) in
  get_active_terms_ids Fixture.test_settings emptied (Fixture.today + 1) first.2
    = (inr (VList (compute_active_terms_ids (Fixture.database []) Fixture.today)),
       first.2)
  ∧ get_active_terms_list Fixture.test_settings emptied (Fixture.today + 1) first.2
    = (first.1, first.2).
Proof.
  apply (active_list_call_fills_both_entries Fixture.test_settings
           (Fixture.database []));
    [split; reflexivity|split; [discriminate|reflexivity]].
Defined.

(** ** The entries of a user *)

Lemma string_app_nil_r (s : string) : s +:+ "" = s.
Proof.
  induction s as [|a s IH]; [reflexivity|].
  change (String a s +:+ "") with (String a (s +:+ "")). by rewrite IH.
Qed.

Lemma not_agreed_key_flags u : not_agreed_key u true ≠ not_agreed_key u false.
Proof.
  unfold not_agreed_key. intros H.
  apply (inj (String.app _)) in H. apply (inj (String.app _)) in H. discriminate H.
Qed.

(** What a call leaves alone in the cache: everything but the user's key
    and the two global keys. *)
Lemma not_agreed_frame settings db now u skip_optional w k :
  k ≠ not_agreed_key u skip_optional →
  k ≠ "tandc.active_terms_ids" → k ≠ "tandc.active_terms_list" →
  cache (get_active_terms_not_agreed_to settings db now u skip_optional w).2 !! k
  = cache w !! k.
Proof.
  intros Nk N1 N2.
  destruct (excluded_by_perm settings u) eqn:Hex.
  { unfold get_active_terms_not_agreed_to. by rewrite Hex. }
  destruct (cache_get_cases now (not_agreed_key u skip_optional) w)
    as [Hmiss|(v & e & Hk & Hlive & Hv & _)].
  - assert ((cache_get now (not_agreed_key u skip_optional) w).1 = inr VNone) as Hmiss'
      by (by rewrite Hmiss).
    pose proof (get_active_terms_list_frame settings db now
                  (logged DEBUG "Not Agreed Terms" w) k N1 N2) as Hframe.
    destruct (get_active_terms_list settings db now (logged DEBUG "Not Agreed Terms" w))
      as [r w1] eqn:Hl. simpl in Hframe.
    destruct (miss_cases _ _ _ _ _ _ _ _ Hex Hmiss' Hl)
      as [(e & -> & _)|(active_qs & rows & qs & _ & _ & _ & _ & ->)].
    + by destruct e.
    + simpl. by rewrite lookup_insert_ne.
  - by rewrite (hit_returns_cached _ _ _ _ _ _ _ _ Hex Hk Hlive Hv).
Qed.

(** X11: the two flags have entries of their own: a call with one value of
    [skip_optional] leaves the user's cached result for the other value
    exactly as it was. *)
Theorem flags_have_separate_entries (settings : Settings) (db : Database)
    (now : datetime) (u : User) (skip_optional : bool) (w : World) :
  cache (get_active_terms_not_agreed_to settings db now u skip_optional w).2
    !! not_agreed_key u (negb skip_optional)
  = cache w !! not_agreed_key u (negb skip_optional).
Proof.
  apply not_agreed_frame;
    [|apply not_agreed_key_ne_ids|apply not_agreed_key_ne_list].
  pose proof (not_agreed_key_flags u) as Hne.
  destruct skip_optional; simpl; congruence.
Qed.

(** A result that was computed and stored is served to whoever asks under
    the same key before the time-to-live has passed, whatever the tables
    hold by then. *)
Lemma stored_result_is_served settings db db' now later u' s' u s w :
  let first := get_active_terms_not_agreed_to settings db now u' s' w in
  computes_afresh now u' s' w →
  returned_rows first ≠ [] →
  not_agreed_key u s = not_agreed_key u' s' →
  excluded_by_perm settings u = false →
  now ≤ later < now + TERMS_CACHE_SECONDS settings →
  get_active_terms_not_agreed_to settings db' later u s first.2 = (first.1, first.2).
Proof.
  intros first Hmiss Hrows Hkey Hex Hwindow. subst first.
  destruct (excluded_by_perm settings u') eqn:Hex'.
  { exfalso. apply Hrows. unfold get_active_terms_not_agreed_to. by rewrite Hex'. }
  destruct (get_active_terms_list settings db now (logged DEBUG "Not Agreed Terms" w))
    as [r w1] eqn:Hl.
  destruct (miss_cases _ _ _ _ _ _ _ _ Hex' Hmiss Hl)
    as [(e & Hcall & _)|(active_qs & rows & qs & _ & _ & _ & _ & Hcall)];
    rewrite Hcall in Hrows |- *.
  - exfalso. apply Hrows. by destruct e.
  - simpl. apply (hit_returns_cached _ _ _ _ _ _ _ (now + TERMS_CACHE_SECONDS settings));
      [done| |lia|done].
    rewrite Hkey. apply lookup_insert_eq.
Qed.

(** X12: the resolver itself never invalidates: once a non-empty result has
    been computed for a user, every call for that user with the same flag
    before the time-to-live has passed returns that result and changes
    nothing, whatever the tables hold by then; an acceptance recorded in
    between is not seen by it. *)
Theorem computed_result_is_stale_within_ttl (settings : Settings) (db db' : Database)
    (now later : datetime) (u : User) (skip_optional : bool) (w : World) :
  let first := get_active_terms_not_agreed_to settings db now u skip_optional w in
  computes_afresh now u skip_optional w →
  returned_rows first ≠ [] →
  now ≤ later < now + TERMS_CACHE_SECONDS settings →
  get_active_terms_not_agreed_to settings db' later u skip_optional first.2
    = (first.1, first.2).
Proof.
  intros first Hmiss Hrows Hwindow.
  apply stored_result_is_served; try done.
  destruct (excluded_by_perm settings u) eqn:Hex; [exfalso|done].
  apply Hrows. subst first. unfold get_active_terms_not_agreed_to. by rewrite Hex.
Qed.

Lemma computed_result_is_stale_within_ttl_witness :
  let accepted t := UserTermsAndConditions_init (Fixture.today + 1) 2 t None None in
  let first :=
    get_active_terms_not_agreed_to Fixture.test_settings (Fixture.database [])
      Fixture.today Fixture.user1 true Fixture.fresh in
  get_active_terms_not_agreed_to Fixture.test_settings
    (Fixture.database [accepted 2; accepted 3]) (Fixture.today + 2) Fixture.user1 true
    first.2
  = (first.1, first.2).
Proof.
  apply (computed_result_is_stale_within_ttl Fixture.test_settings (Fixture.database []));
    [reflexivity| |split; [discriminate|reflexivity]].
  intros H. vm_compute in H. discriminate H.
Defined.

(** X13: the key of a user with [skip_optional] is the key of the user
    whose name is that name followed by [_skip_optional], without the flag.
    So a result computed for the latter, optional policies included, is
    handed to the former when they ask to skip the optional ones, until the
    time-to-live has passed. *)
Theorem skip_suffix_collides_with_usernames (settings : Settings) (db db' : Database)
    (now later : datetime) (u u' : User) (w : World) :
  let first := get_active_terms_not_agreed_to settings db now u' false w in
  username u' = username u +:+ SKIP_OPTIONAL_CACHE_KEY_SUFFIX →
  not_agreed_key u true = not_agreed_key u' false
  ∧ (computes_afresh now u' false w →
     returned_rows first ≠ [] →
     excluded_by_perm settings u = false →
     now ≤ later < now + TERMS_CACHE_SECONDS settings →
     get_active_terms_not_agreed_to settings db' later u true first.2
       = (first.1, first.2)).
Proof.
  intros first Hname.
  assert (not_agreed_key u true = not_agreed_key u' false) as Hkey.
  { unfold not_agreed_key, get_username. by rewrite Hname, string_app_nil_r. }
  split; [done|]. intros Hmiss Hrows Hex Hwindow.
  by apply stored_result_is_served.
Qed.

Lemma skip_suffix_collides_with_usernames_witness :
  let bob := {| pk := 7; username := "bob"; is_active := true;
                is_superuser := false; user_permissions := [] |} in
  let other := {| pk := 8; username := "bob_skip_optional"; is_active := true;
                  is_superuser := false; user_permissions := [] |} in
  let first :=
    get_active_terms_not_agreed_to Fixture.test_settings (Fixture.database [])
      Fixture.today other false Fixture.fresh in
  Fixture.terms5 ∈ returned_rows
    (get_active_terms_not_agreed_to Fixture.test_settings (Fixture.database [])
       (Fixture.today + 1) bob true first.2).
Proof.
  intros bob other first.
  assert (get_active_terms_not_agreed_to Fixture.test_settings (Fixture.database [])
            (Fixture.today + 1) bob true first.2 = (first.1, first.2)) as ->.
  { refine (proj2 (skip_suffix_collides_with_usernames Fixture.test_settings
                     (Fixture.database []) (Fixture.database []) Fixture.today
                     (Fixture.today + 1) bob other Fixture.fresh _) _ _ _ _).
    - reflexivity.
    - reflexivity.
    - intros H. vm_compute in H. discriminate H.
    - reflexivity.
    - split; [discriminate|reflexivity]. }
  assert (returned_rows (first.1, first.2)
          = [Fixture.terms3; Fixture.terms2; Fixture.terms5]) as ->
    by (vm_compute; reflexivity).
  right. right. left.
Defined.

(** X14: a failed lookup is not remembered: after a call during which the
    acceptance table failed (absorbed or not), the user's key still holds
    nothing live, so the next call computes again. *)
Theorem failed_lookup_is_not_cached (settings : Settings) (db : Database)
    (now later : datetime) (u : User) (skip_optional : bool) (w : World) (e : Exn) :
  written_by_resolvers w →
  excluded_by_perm settings u = false →
  computes_afresh now u skip_optional w →
  userterms_failure db = Some e →
  now ≤ later →
  computes_afresh later u skip_optional
    (get_active_terms_not_agreed_to settings db now u skip_optional w).2.
Proof.
  intros Hwf Hex Hmiss Hfail Hle.
  destruct (failing_lookup_outcome settings db now u skip_optional w e Hwf Hex Hmiss Hfail)
    as (w1 & Hsame & -> & _).
  assert ((absorbed e w1).2 = w1) as -> by (by destruct e).
  unfold computes_afresh. rewrite (cache_get_same_entry later _ w1 w Hsame).
  by rewrite (cache_get_later now later _ w Hle (cache_get_miss _ _ _ Hmiss)).
Qed.

Lemma failed_lookup_is_not_cached_witness :
  computes_afresh (Fixture.today + 1) Fixture.user1 false
    (get_active_terms_not_agreed_to Fixture.test_settings
       (Fixture.failing TypeError []) Fixture.today Fixture.user1 false Fixture.fresh).2.
Proof.
  apply (failed_lookup_is_not_cached Fixture.test_settings
           (Fixture.failing TypeError []) Fixture.today (Fixture.today + 1)
           Fixture.user1 false Fixture.fresh TypeError).
  - split; intros v e H; vm_compute in H; discriminate H.
  - reflexivity.
  - reflexivity.
  - reflexivity.
  - discriminate.
Defined.

(** X15: the active list is cached as a query, not as rows: a computing
    call runs it again, so every policy it returns is a row of the table as
    it is now, also when the active list comes from the cache. A row that
    was deleted since is not returned. *)
Theorem outstanding_rows_are_current_rows (settings : Settings) (db : Database)
    (now : datetime) (u : User) (skip_optional : bool) (w : World)
    (t : TermsAndConditions) :
  written_by_resolvers w →
  computes_afresh now u skip_optional w →
  t ∈ returned_rows (get_active_terms_not_agreed_to settings db now u skip_optional w) →
  t ∈ termsandconditions db.
Proof.
  intros Hwf Hmiss Hin.
  destruct (computed_rows settings db now u skip_optional w Hmiss)
    as [Hnil|(active_qs & w1 & rows & Hl & _ & Hsel & Hseq)].
  - rewrite Hnil in Hin. by apply not_elem_of_nil in Hin.
  - destruct (get_active_terms_list_written settings db now
                (logged DEBUG "Not Agreed Terms" w))
      as (ids & rows' & w1' & Hl' & _); [done|].
    rewrite Hl' in Hl. injection Hl as <- _. simpl in Hsel. injection Hsel as <-.
    rewrite Hseq, arranged_Permutation in Hin.
    apply elem_of_kept in Hin as [Hin _].
    by apply elem_of_filter_bool in Hin as [Hin _].
Qed.

Lemma outstanding_rows_are_current_rows_witness :
  let cached :=
    (get_active_terms_list Fixture.test_settings (Fixture.database []) Fixture.today
       Fixture.fresh).2 in
  let db' :=
    with_termsandconditions
      [Fixture.terms1; Fixture.terms2; Fixture.terms3; Fixture.terms4; Fixture.terms6]
      (Fixture.database []) in
  let result :=
    get_active_terms_not_agreed_to Fixture.test_settings db' (Fixture.today + 1)
      Fixture.user1 false cached in
  snd <$> cache cached !! "tandc.active_terms_list" = Some (Fixture.today + 30)
  ∧ Fixture.returned_ids result = Some [3; 2]
  ∧ Fixture.terms2 ∈ termsandconditions db'.
Proof.
  intros cached db' result.
  split; [vm_compute; reflexivity|]. split; [vm_compute; reflexivity|].
  apply (outstanding_rows_are_current_rows Fixture.test_settings db'
           (Fixture.today + 1) Fixture.user1 false cached Fixture.terms2).
  - destruct (get_active_terms_list_written Fixture.test_settings (Fixture.database [])
                Fixture.today Fixture.fresh (written_by_resolvers_empty []))
      as (ids & rows & w1 & Hl & Hwf & _).
    subst cached. rewrite Hl. exact Hwf.
  - vm_compute. reflexivity.
  - assert (returned_rows result = [Fixture.terms3; Fixture.terms2]) as Hrows
      by (vm_compute; reflexivity).
    change (Fixture.terms2 ∈ returned_rows result). rewrite Hrows.
    right. left.
Defined.

(** ** Ties, and the order of the rows in the table *)

Lemma date_le_antisym x y : date_le x y → date_le y x → x = y.
Proof. destruct x, y; simpl; try done. intros. f_equal. lia. Qed.

(** The latest activated row of a slug is unique when there are no ties. *)
Lemma latest_is_unique db now t t' :
  no_ties db now →
  t ∈ termsandconditions db → activated now t = true →
  t' ∈ termsandconditions db → activated now t' = true →
  slug t = slug t' →
  by_date_active t t' → by_date_active t' t → t = t'.
Proof.
  intros Hties Hin Hact Hin' Hact' Hs H1 H2.
  apply Hties; try done. by apply date_le_antisym.
Qed.

(** Without ties, the entry of a slug is the id of its latest activated
    row, and of no other. *)
Lemma active_terms_dict_lookup db now s i :
  no_ties db now →
  active_terms_dict db now !! s = Some i ↔
    ∃ t, t ∈ termsandconditions db ∧ activated now t = true
         ∧ slug t = s ∧ id t = i
         ∧ ∀ t', t' ∈ termsandconditions db → activated now t' = true →
                 slug t' = s → by_date_active t' t.
Proof.
  intros Hties. split; [apply active_terms_dict_latest|].
  intros (t & Hin & Hact & Hs & Hi & Hmax).
  assert (t ∈ merge_sort by_date_active
                (List.filter (activated now) (termsandconditions db))) as Hin'.
  { by rewrite merge_sort_Permutation, elem_of_filter_bool. }
  destruct (dict_of_lookup_is_Some _ _ Hin') as [i0 Hi0]. rewrite Hs in Hi0.
  destruct (active_terms_dict_latest db now s i0 Hi0)
    as (t0 & Hin0 & Hact0 & Hs0 & Hid0 & Hmax0).
  assert (t = t0) as <-.
  { apply (latest_is_unique db now); try done; [congruence|by apply Hmax0|by apply Hmax]. }
  rewrite <-Hi, Hid0. exact Hi0.
Qed.

(** X16: without ties, [get_active] and [get_active_terms_ids] agree on the
    active version of a slug: the row a computing [get_active] returns is
    the one whose id a computing [get_active_terms_ids] lists, and it is a
    row of the computed active list. *)
Theorem get_active_agrees_with_active_ids (settings : Settings) (db : Database)
    (now : datetime) (s : string) (w w' : World) (t : TermsAndConditions) :
  no_ties db now →
  NoDup (id <$> termsandconditions db) →
  get_active_computes now s w →
  (cache_get now "tandc.active_terms_ids" w').1 = inr VNone →
  (get_active settings db now s w).1 = inr (VTerms t) →
  ∃ ids, (get_active_terms_ids settings db now w').1 = inr (VList ids)
         ∧ id t ∈ ids
         ∧ t ∈ active_terms_rows db now.
Proof.
  intros Hties Hpk Hmiss Hmiss' Hfound.
  rewrite (get_active_terms_ids_computed _ _ _ _ Hmiss').
  exists (compute_active_terms_ids db now). split; [done|].
  destruct (get_active_computed_cases settings db now s w Hmiss)
    as [(t0 & Hcall & Hq & Hmax)|[Hcall _]]; rewrite Hcall in Hfound; [|done].
  injection Hfound as ->. destruct Hq as (Hin & Hs & Hact%activated_true).
  assert (active_terms_dict db now !! s = Some (id t)) as Hentry.
  { apply active_terms_dict_lookup; [done|]. exists t. repeat split; try done.
    intros t' Hin' Hact' Hs'. apply Hmax. split; [done|]. split; [done|].
    by apply activated_true. }
  split.
  - apply elem_of_compute_active_terms_ids. by exists s.
  - apply active_terms_rows_entry; [done|]. split; [done|]. by rewrite Hs.
Qed.

Lemma fixture_no_ties now : no_ties (Fixture.database []) now.
Proof.
  intros t t' Hin Hin' _ _ Hs Hd. simpl in Hin, Hin'.
  repeat (apply elem_of_cons in Hin as [->|Hin]);
    try (by apply not_elem_of_nil in Hin);
    repeat (apply elem_of_cons in Hin' as [->|Hin']);
    try (by apply not_elem_of_nil in Hin');
    first [reflexivity|discriminate Hs|discriminate Hd].
Defined.

Lemma get_active_agrees_with_active_ids_witness :
  ∃ ids, (get_active_terms_ids Fixture.test_settings (Fixture.database [])
            Fixture.today Fixture.fresh).1 = inr (VList ids)
         ∧ id Fixture.terms2 ∈ ids
         ∧ Fixture.terms2 ∈ active_terms_rows (Fixture.database []) Fixture.today.
Proof.
  apply (get_active_agrees_with_active_ids Fixture.test_settings (Fixture.database [])
           Fixture.today "site-terms" Fixture.fresh Fixture.fresh Fixture.terms2).
  - apply fixture_no_ties.
  - refine (bool_decide_unpack (NoDup [1; 2; 3; 4; 5; 6]) _). vm_compute. exact I.
  - reflexivity.
  - reflexivity.
  - reflexivity.
Defined.

Lemma no_ties_Permutation db db' now :
  termsandconditions db' ≡ₚ termsandconditions db →
  no_ties db now → no_ties db' now.
Proof.
  intros Hperm Hties t t'. rewrite !Hperm. apply Hties.
Qed.

(** X17: without ties, the order of the rows in the table does not matter
    to [get_active_terms_ids] and [get_active]: on a table with the same
    rows in another order the calls return the same values and leave the
    same cache and log. *)
Theorem row_order_does_not_matter (settings : Settings) (db db' : Database)
    (now : datetime) (w : World) :
  termsandconditions db' ≡ₚ termsandconditions db →
  no_ties db now →
  get_active_terms_ids settings db' now w = get_active_terms_ids settings db now w
  ∧ ∀ s, get_active settings db' now s w = get_active settings db now s w.
Proof.
  intros Hperm Hties.
  pose proof (no_ties_Permutation db db' now Hperm Hties) as Hties'.
  split.
  - assert (active_terms_dict db' now = active_terms_dict db now) as Hdict.
    { apply map_eq. intros s. apply option_eq. intros i.
      rewrite !active_terms_dict_lookup by done.
      assert (∀ t, t ∈ termsandconditions db' ↔ t ∈ termsandconditions db) as Hel
        by (intros t; by rewrite Hperm).
      split; intros (t & Hin & Hact & Hs & Hi & Hmax); exists t;
        (split; [by apply Hel|]); repeat split; try done;
        intros t' Hin'; apply Hmax; by apply Hel. }
    unfold get_active_terms_ids, compute_active_terms_ids. by rewrite Hdict.
  - intros s.
    destruct (cache_get_cases now (active_terms_key s) w)
      as [Hmiss|(v & e & Hk & Hlive & Hv & _)].
    + assert (get_active_computes now s w) as Hmiss'
        by (unfold get_active_computes; by rewrite Hmiss).
      destruct (get_active_computed_cases settings db now s w Hmiss')
        as [(t & -> & Hq & Hmax)|[-> Hnone]];
        destruct (get_active_computed_cases settings db' now s w Hmiss')
          as [(t' & -> & Hq' & Hmax')|[-> Hnone']]; try done.
      * assert (qualifies db now s t') as Hq''.
        { destruct Hq' as (Hin' & ?). split; [by rewrite <-Hperm|done]. }
        assert (qualifies db' now s t) as Hq3.
        { destruct Hq as (Hin & ?). split; [by rewrite Hperm|done]. }
        assert (t' = t) as ->; [|done].
        destruct Hq as (Hin & Hs & Hact%activated_true).
        destruct Hq'' as (Hin' & Hs' & Hact'%activated_true).
        apply (latest_is_unique db now); try done; [congruence| |].
        -- apply Hmax. split; [done|]. split; [done|]. by apply activated_true.
        -- apply Hmax'. done.
      * exfalso. apply (Hnone' t). destruct Hq as (Hin & ?).
        split; [by rewrite Hperm|done].
      * exfalso. apply (Hnone t'). destruct Hq' as (Hin' & ?).
        split; [by rewrite <-Hperm|done].
    + by rewrite !(get_active_hit _ _ _ _ _ _ _ Hk Hlive Hv).
Qed.

Lemma row_order_does_not_matter_witness :
  let reversed :=
    with_termsandconditions (reverse (termsandconditions (Fixture.database [])))
      (Fixture.database []) in
  get_active_terms_ids Fixture.test_settings reversed Fixture.today Fixture.fresh
    = get_active_terms_ids Fixture.test_settings (Fixture.database []) Fixture.today
        Fixture.fresh
  ∧ ∀ s, get_active Fixture.test_settings reversed Fixture.today s Fixture.fresh
         = get_active Fixture.test_settings (Fixture.database []) Fixture.today s
             Fixture.fresh.
Proof.
  apply (row_order_does_not_matter Fixture.test_settings (Fixture.database [])).
  - simpl. apply reverse_Permutation.
  - apply fixture_no_ties.
Defined.

(** ** Validated writes *)

Lemma clean_same_terms db db' ut :
  termsandconditions db' = termsandconditions db → clean db' ut = clean db ut.
Proof. intros H. unfold clean, related_terms. by rewrite H. Qed.

(** X18: a write that validates first keeps the acceptance table valid: if
    [unique_together] holds and every stored record passes [clean], then
    after the write has gone through both still hold, the new record is the
    only change, and it is not a null [date_accepted] on a mandatory
    policy. *)
Theorem validated_save_keeps_the_table_valid (db db' : Database)
    (self : UserTermsAndConditions) :
  unique_together db →
  records_are_clean db →
  validated_save db self = inr db' →
  unique_together db'
  ∧ records_are_clean db'
  ∧ termsandconditions db' = termsandconditions db
  ∧ usertermsandconditions db' = usertermsandconditions db ++ [self]
  ∧ ∀ t, related_terms db self = inr t → optional t = false →
         is_Some (date_accepted self).
Proof.
  intros Huniq Hclean Hsave. unfold validated_save, full_clean in Hsave.
  destruct (clean db self) as [e|[]] eqn:Hself; [discriminate Hsave|].
  simpl in Hsave. unfold save in Hsave.
  destruct (existsb _ _) eqn:Hdup; [discriminate Hsave|].
  injection Hsave as <-. simpl.
  split; [|split; [|split; [done|split; [done|]]]].
  - unfold unique_together. simpl. rewrite fmap_app. simpl.
    apply NoDup_app. split; [done|]. split; [|apply NoDup_singleton].
    intros [a b] Hin [= -> ->]%list_elem_of_singleton.
    apply list_elem_of_fmap in Hin as (ut & [= Hu Ht] & Hut).
    assert (existsb (λ ut, bool_decide (user ut = user self)
                           && bool_decide (terms ut = terms self))
                    (usertermsandconditions db) = true) as Htrue; [|congruence].
    apply existsb_exists. exists ut. split; [by apply list_elem_of_In|].
    by rewrite !bool_decide_eq_true_2.
  - intros ut [Hin| ->%list_elem_of_singleton]%elem_of_app.
    + rewrite <-(Hclean ut Hin). by apply clean_same_terms.
    + rewrite <-Hself. by apply clean_same_terms.
  - intros t Hrel Hmand. unfold clean in Hself. rewrite Hrel in Hself. simpl in Hself.
    rewrite Hmand in Hself. destruct (date_accepted self); [eauto|discriminate Hself].
Qed.

Lemma validated_save_keeps_the_table_valid_witness :
  let accepted := UserTermsAndConditions_init 20191231 2 2 None None in
  let seen := UserTermsAndConditions_init 20191231 2 5 None (Some None) in
  let record := UserTermsAndConditions_init Fixture.today 2 3 None None in
  let db := Fixture.database [accepted; seen] in
  let db' := Fixture.database [accepted; seen; record] in
  validated_save db record = inr db'
  ∧ unique_together db'
  ∧ records_are_clean db'
  ∧ usertermsandconditions db' = usertermsandconditions db ++ [record]
  ∧ related_terms db record = inr Fixture.terms3
  ∧ optional Fixture.terms3 = false
  ∧ is_Some (date_accepted record).
Proof.
  intros accepted seen record db db'.
  assert (unique_together db) as Huniq.
  { refine (bool_decide_unpack (NoDup [(2, 2); (2, 5)]) _). vm_compute. exact I. }
  assert (records_are_clean db) as Hclean.
  { intros ut Hin. apply list_elem_of_In in Hin.
    destruct Hin as [<-|[<-|[]]]; reflexivity. }
  destruct (validated_save_keeps_the_table_valid db db' record Huniq Hclean eq_refl)
    as (Huniq' & Hclean' & _ & Happ & Hdate).
  split; [reflexivity|]. split; [exact Huniq'|]. split; [exact Hclean'|].
  split; [exact Happ|]. split; [reflexivity|]. split; [reflexivity|].
  exact (Hdate Fixture.terms3 eq_refl eq_refl).
Defined.

(** ** What a call writes *)

Lemma get_active_terms_ids_log settings db now w :
  log (get_active_terms_ids settings db now w).2 = log w.
Proof.
  unfold get_active_terms_ids, bind, cache_get, cache_set.
  repeat case_match; simplify_eq/=; done.
Qed.

Lemma get_active_terms_list_log settings db now w :
  log (get_active_terms_list settings db now w).2 = log w.
Proof.
  unfold get_active_terms_list. unfold bind at 1.
  destruct (cache_get_cases now "tandc.active_terms_list" w)
    as [->|(v & e & _ & _ & Hv & ->)]; [|by destruct v].
  pose proof (get_active_terms_ids_log settings db now w) as Hids.
  unfold bind at 1. destruct (get_active_terms_ids settings db now w) as [[e|ids] w1];
    [done|].
  unfold bind, lift, cache_set. simpl in Hids.
  repeat case_match; simplify_eq/=; done.
Qed.

(** X19: a call for a user writes nowhere in the cache but under the
    user's own key and the two global keys: the entries of other users and
    those of [get_active] for other slugs stay as they were, whether the
    call returns or raises. To the log it adds at most its one debug
    record. *)
Theorem call_writes_only_its_own_entries (settings : Settings) (db : Database)
    (now : datetime) (u : User) (skip_optional : bool) (w : World) (k : string) :
  let after := (get_active_terms_not_agreed_to settings db now u skip_optional w).2 in
  k ≠ not_agreed_key u skip_optional →
  k ≠ "tandc.active_terms_ids" →
  k ≠ "tandc.active_terms_list" →
  cache after !! k = cache w !! k
  ∧ (log after = log w ∨ log after = (DEBUG, "Not Agreed Terms") :: log w).
Proof.
  intros after Nk N1 N2. subst after. split; [by apply not_agreed_frame|].
  destruct (excluded_by_perm settings u) eqn:Hex.
  { left. unfold get_active_terms_not_agreed_to. by rewrite Hex. }
  destruct (cache_get_cases now (not_agreed_key u skip_optional) w)
    as [Hmiss|(v & e & Hk & Hlive & Hv & _)].
  - right.
    assert ((cache_get now (not_agreed_key u skip_optional) w).1 = inr VNone) as Hmiss'
      by (by rewrite Hmiss).
    pose proof (get_active_terms_list_log settings db now
                  (logged DEBUG "Not Agreed Terms" w)) as Hlog.
    destruct (get_active_terms_list settings db now (logged DEBUG "Not Agreed Terms" w))
      as [r w1] eqn:Hl. simpl in Hlog.
    destruct (miss_cases _ _ _ _ _ _ _ _ Hex Hmiss' Hl)
      as [(e & -> & _)|(active_qs & rows & qs & _ & _ & _ & _ & ->)].
    + by destruct e.
    + done.
  - left. by rewrite (hit_returns_cached _ _ _ _ _ _ _ _ Hex Hk Hlive Hv).
Qed.

Lemma call_writes_only_its_own_entries_witness :
  let w :=
    (get_active Fixture.test_settings (Fixture.database []) Fixture.today "site-terms"
       Fixture.fresh).2 in
  let after :=
    (get_active_terms_not_agreed_to Fixture.test_settings (Fixture.database [])
       Fixture.today Fixture.user1 false w).2 in
  cache after !! "tandc.active_terms_site-terms" = cache w !! "tandc.active_terms_site-terms"
  ∧ (log after = log w ∨ log after = (DEBUG, "Not Agreed Terms") :: log w).
Proof.
  apply (call_writes_only_its_own_entries Fixture.test_settings (Fixture.database [])
           Fixture.today Fixture.user1 false);
    intros H; vm_compute in H; discriminate H.
Defined.
